(** * ttstream: the streaming transport of kitex, as a shallow embedding

    The development follows the Go sources:
    - [container]: the generic [Pipe] (package container);
    - [ttstream]: [streamIO] and [transport] (package ttstream).

    Go values are modelled by records, calls by state-passing functions.
    A call either returns, panics, or parks its goroutine; the three cases
    are the constructors of [outcome].  Unless stated otherwise a function
    is modelled as run by one goroutine with nobody else scheduled, so a
    [sync.Cond.Wait] or a send on a full channel that nobody can release
    is [Blocked]. *)

From Stdlib Require Import ZArith Lia.
From Stdlib.Strings Require Import Byte.
From stdpp Require Import gmap strings list.

Local Open Scope Z_scope.

(** ** Go runtime preliminaries *)

(** Result of running a call to completion. *)
Inductive outcome (A : Type) : Type :=
| Returned (a : A)
| Panicked (msg : string)
| Blocked.

Arguments Returned {A} a.
Arguments Panicked {A} msg.
Arguments Blocked {A}.

(** The error values the modelled code can hand to its callers. *)
Inductive error : Type :=
| io_EOF
| ErrPipeEOF
| ErrClosed
| ErrCtx (msg : string)
| Errorf (msg : string)
| ErrExternal (msg : string).

#[global] Instance error_eq_dec : EqDecision error.
Proof. solve_decision. Defined.

(** [errors.Is] on the sentinel values used here is identity of the value. *)
Definition errors_Is (err target : error) : bool := bool_decide (err = target).

(** Two's-complement wrap-around of a Go [int32]. *)
Definition int32_wrap (z : Z) : Z := (z + 2147483648) mod 4294967296 - 2147483648.

Definition MaxInt32 : Z := 2147483647.
Definition MinInt32 : Z := -2147483648.

(** [atomic.AddInt32(&x, delta)]: the new value, which is also stored. *)
Definition atomic_AddInt32 (x delta : Z) : Z := int32_wrap (x + delta).

(** [atomic.CompareAndSwapInt32(&x, old, new)]: the stored value and whether
    the swap happened. *)
Definition atomic_CompareAndSwapInt32 (x old new : Z) : Z * bool :=
  if bool_decide (x = old) then (new, true) else (x, false).

(** State-passing calls: a call runs on a state and yields an outcome and
    the state it leaves behind (for a panic or a parked goroutine: the state
    at that point). *)
Definition M (S A : Type) : Type := S -> outcome A * S.

Definition ret {S A : Type} (a : A) : M S A := fun s => (Returned a, s).

Definition bind {S A B : Type} (m : M S A) (k : A -> M S B) : M S B :=
  fun s =>
    match m s with
    | (Returned a, s') => k a s'
    | (Panicked msg, s') => (Panicked msg, s')
    | (Blocked, s') => (Blocked, s')
    end.

Definition get {S : Type} : M S S := fun s => (Returned s, s).
Definition modify {S : Type} (f : S -> S) : M S unit := fun s => (Returned tt, f s).
Definition panic {S A : Type} (msg : string) : M S A := fun s => (Panicked msg, s).
Definition park {S A : Type} : M S A := fun s => (Blocked, s).

Notation "x <~ m ;; k" := (bind m (fun x => k))
  (at level 100, m at next level, right associativity, only parsing).
Notation "m ;;; k" := (bind m (fun _ => k))
  (at level 100, right associativity, only parsing).

(** ** Package container *)

Module container.

Definition PipeEOF : error := io_EOF.

Section Pipe.
Context {Item : Type}.

(** Modelled from the spec: [container.Queue] is not among the sources; the
    pipe is "an unbounded FIFO backed by a mutex+condvar and a queue".  [Add]
    puts an item at the tail, [Get] takes the head and reports whether there
    was one, [Size] counts the items. *)
Definition Queue : Type := list Item.

Definition NewQueueWithLocker : Queue := [].

Definition Queue_Add (q : Queue) (item : Item) : Queue := q ++ [item].

Definition Queue_Get (q : Queue) : option Item * Queue :=
  match q with
  | [] => (None, [])
  | val :: q' => (Some val, q')
  end.

Definition Queue_Size (q : Queue) : nat := length q.

(** [type Pipe[Item any] struct]: the locker and the condition variable
    carry no data; what is left is the queue and the closed flag. *)
Record Pipe : Type := mkPipe {
  queue : Queue;
  closed : bool
}.

Definition NewPipe : Pipe := {| queue := NewQueueWithLocker; closed := false |}.

(** The [for i := 0; i < len(items); i++] loop of [Read]. [rem] counts the
    iterations left, [i] is the index, [n] the number of items stored.
    [items[i] = val] is in range because [i < len(items)]. *)
Fixpoint Read_for (rem i : nat) (q : Queue) (items : list Item) (n : nat)
  : Queue * list Item * nat :=
  match rem with
  | O => (q, items, n)
  | S rem' =>
      match Queue_Get q with
      | (Some val, q1) => Read_for rem' (S i) q1 (<[i:=val]> items) (S n)
      | (None, q1) =>
          if (0 <? i)%nat then (q1, items, n)
          else
            (* runtime.Gosched(), then a second try *)
            match Queue_Get q1 with
            | (Some val, q2) => Read_for rem' (S i) q2 (<[i:=val]> items) (S n)
            | (None, q2) => (q2, items, n)
            end
      end
  end.

(** [func (p *Pipe[Item]) Read(items []Item) (int, error)].  [fuel] bounds
    the number of passes through the [READ:] label; [None] is "still
    running".  The result carries the caller's slice as [Read] left it and
    the pipe. With an empty queue on an open pipe the reader waits on the
    condition variable. *)
Fixpoint Read (fuel : nat) (p : Pipe) (items : list Item)
  : option (outcome (nat * option error) * list Item * Pipe) :=
  match fuel with
  | O => None
  | S fuel' =>
      let '(q, items', n) := Read_for (length items) 0 (queue p) items 0 in
      let p' := {| queue := q; closed := closed p |} in
      if (0 <? n)%nat then Some (Returned (n, None), items', p')
      else
        let empty := (Queue_Size q =? 0)%nat in
        if negb empty then Read fuel' p' items'
        else if closed p' then Some (Returned (0%nat, Some PipeEOF), items', p')
        else Some (Blocked, items', p')
  end.

(** [func (p *Pipe[Item]) Write(items ...Item)]: no result, no look at
    [closed]. *)
Definition Write (p : Pipe) (items : list Item) : Pipe :=
  {| queue := fold_left Queue_Add items (queue p); closed := closed p |}.

(** [func (p *Pipe[Item]) Close()]. *)
Definition Close (p : Pipe) : Pipe :=
  {| queue := queue p; closed := true |}.

(** One reader calling [Read] once per slice of [bufs], in turn. Each entry
    of the result is the returned count and error with the slice as filled.
    A call that parks ends the run. *)
Fixpoint Reads (fuel : nat) (p : Pipe) (bufs : list (list Item))
  : option (list (nat * option error * list Item) * Pipe) :=
  match bufs with
  | [] => Some ([], p)
  | items :: bufs' =>
      match Read fuel p items with
      | Some (Returned (n, err), items', p') =>
          match Reads fuel p' bufs' with
          | Some (rs, p'') => Some ((n, err, items') :: rs, p'')
          | None => None
          end
      | _ => None
      end
  end.

(** A writer and one reader at work on an open pipe: the calls of [Write]
    and [Read] in the order in which they take effect. A [Read] is listed
    where it finds its items; one that would have to wait where it is listed
    ends the run. *)
Inductive pipeCall : Type :=
| callWrite (items : list Item)
| callRead (items : list Item).

Fixpoint Calls (fuel : nat) (p : Pipe) (cs : list pipeCall)
  : option (list (nat * option error * list Item) * Pipe) :=
  match cs with
  | [] => Some ([], p)
  | callWrite items :: cs' => Calls fuel (Write p items) cs'
  | callRead items :: cs' =>
      match Read fuel p items with
      | Some (Returned (n, err), items', p') =>
          match Calls fuel p' cs' with
          | Some (rs, p'') => Some ((n, err, items') :: rs, p'')
          | None => None
          end
      | _ => None
      end
  end.

(** The items written by a list of calls, in order. *)
Fixpoint written (cs : list pipeCall) : list Item :=
  match cs with
  | [] => []
  | callWrite items :: cs' => items ++ written cs'
  | callRead _ :: cs' => written cs'
  end.

End Pipe.

Arguments Pipe Item : clear implicits.
Arguments Queue Item : clear implicits.
Arguments pipeCall Item : clear implicits.

(** Modelled from the spec: the revision of the pipe that [streamIO] is
    written against ([Read] and [Write] take a context, [Write] answers an
    error, [Cancel] exists) is not among the sources.  "States: Open, Closed
    (EOF after drain), Cancelled (immediate EOF, drop queued items). Once
    Closed or Cancelled, terminal." *)
Inductive pipeState : Type :=
| pipeStateOpen
| pipeStateClosed
| pipeStateCanceled.

Section CtxPipe.
Context {Item : Type}.

Record CtxPipe : Type := mkCtxPipe {
  cqueue : list Item;
  cstate : pipeState
}.

Definition NewCtxPipe : CtxPipe := {| cqueue := []; cstate := pipeStateOpen |}.

(** "write(item): non-blocking append; fails only if the pipe is
    closed/cancelled - returns ErrClosed." *)
Definition CtxPipe_Write (p : CtxPipe) (item : Item) : CtxPipe * option error :=
  match cstate p with
  | pipeStateOpen => ({| cqueue := cqueue p ++ [item]; cstate := pipeStateOpen |}, None)
  | _ => (p, Some ErrClosed)
  end.

(** "read(buf[0..n]) -> (m, err): returns up to n items. Blocks if empty and
    open. Returns EOF (m=0) after drain if closed. Returns EOF immediately if
    cancelled."  A read that would block is aborted with the context's error
    when the context is done. *)
Definition CtxPipe_Read (ctxerr : option error) (p : CtxPipe) (items : list Item)
  : outcome (nat * option error) * list Item * CtxPipe :=
  match cstate p, cqueue p with
  | pipeStateCanceled, _ => (Returned (0%nat, Some ErrPipeEOF), items, p)
  | st, (_ :: _) as q =>
      let got := take (length items) q in
      (Returned (length got, None), got ++ drop (length got) items,
       {| cqueue := drop (length got) q; cstate := st |})
  | pipeStateClosed, [] => (Returned (0%nat, Some ErrPipeEOF), items, p)
  | pipeStateOpen, [] =>
      match ctxerr with
      | Some e => (Returned (0%nat, Some e), items, p)
      | None => (Blocked, items, p)
      end
  end.

(** "close(): marks closed; readers draining remaining items then observe
    EOF." *)
Definition CtxPipe_Close (p : CtxPipe) : CtxPipe :=
  match cstate p with
  | pipeStateOpen => {| cqueue := cqueue p; cstate := pipeStateClosed |}
  | _ => p
  end.

(** "cancel(): marks cancelled; remaining items are discarded; readers see
    EOF immediately." *)
Definition CtxPipe_Cancel (p : CtxPipe) : CtxPipe :=
  match cstate p with
  | pipeStateOpen => {| cqueue := []; cstate := pipeStateCanceled |}
  | _ => p
  end.

End CtxPipe.

Arguments CtxPipe Item : clear implicits.

End container.

(** ** Package ttstream *)

Module ttstream.

(** *** Collaborators that are not part of the package *)

(** [streamx.Header], [streamx.Trailer]: [map[string]string]. *)
Abbreviation Header := (gmap string string).
Abbreviation Trailer := (gmap string string).

(** Modelled from the spec: [serviceinfo.StreamingMode] is declared outside
    the sources; the modes are "Unary|ClientStreaming|ServerStreaming|
    Bidirectional". *)
Inductive StreamingMode : Type :=
| StreamingUnary
| StreamingClient
| StreamingServer
| StreamingBidirectional.

(** Modelled from the spec: the method directory, "lookup(name) ->
    {streamingMode, oneway}".  The directory is the [Methods] map of the
    service info, as the generated glue fills it; [ServiceInfo.MethodInfo]
    hands back an interface value, which is nil ([None]) for a method the
    map does not have. *)
Record MethodInfo : Type := mkMethodInfo {
  StreamingMode_of : StreamingMode;
  OneWay : bool
}.

Record ServiceInfo : Type := mkServiceInfo {
  Methods : gmap string MethodInfo
}.

Definition ServiceInfo_MethodInfo (sinfo : ServiceInfo) (name : string)
  : option MethodInfo := Methods sinfo !! name.

(** [context.Context]: the only thing read from it is whether it is done,
    and with which error. *)
Record Context : Type := mkContext {
  ctx_err : option error
}.

Definition context_Background : Context := {| ctx_err := None |}.

(** [netpoll.Connection], as far as [transport.Close] uses it: whether it
    has been closed and what its [Close] answers. *)
Record Connection : Type := mkConnection {
  conn_closed : bool;
  conn_close_result : option error
}.

(** *** Frames *)

(** Modelled from the spec: frame.go is not among the sources. Frame type
    codes as in "type encoding: Meta=0, Header=1, Data=2, Trailer=3"; the
    fields of [streamFrame] and [Frame] as the transport reads them. *)
Definition metaFrameType : Z := 0.
Definition headerFrameType : Z := 1.
Definition dataFrameType : Z := 2.
Definition trailerFrameType : Z := 3.

Record streamFrame : Type := mkStreamFrame {
  sid : Z;
  method : string;
  header : Header;
  trailer : Trailer;
  meta : gmap string string
}.

Record Frame : Type := mkFrame {
  fr_streamFrame : streamFrame;
  typ : Z;
  payload : list byte
}.

Definition newFrame (meta : streamFrame) (ftype : Z) (payload : list byte) : Frame :=
  {| fr_streamFrame := meta; typ := ftype; payload := payload |}.

(** The literal [streamFrame{sid: sid, method: method}] and its variants. *)
Definition streamFrame_lit (sid : Z) (method : string) (header : Header)
  (trailer : Trailer) : streamFrame :=
  {| sid := sid; method := method; header := header; trailer := trailer; meta := ∅ |}.

(** *** Streams *)

(** Modelled from the spec: stream.go is not among the sources. A stream
    carries its [streamFrame], its mode, what it has received from the peer
    and whether it has been closed. *)
Record stream : Type := mkStream {
  s_streamFrame : streamFrame;
  s_mode : StreamingMode;
  recvHeader : option Header;
  recvTrailer : option Trailer;
  recvMeta : option (gmap string string);
  s_closed : bool
}.

Definition stream_sid (s : stream) : Z := sid (s_streamFrame s).

Definition stream_new (mode : StreamingMode) (smeta : streamFrame) : stream :=
  {| s_streamFrame := smeta; s_mode := mode; recvHeader := None;
     recvTrailer := None; recvMeta := None; s_closed := false |}.

Definition stream_set_recvHeader (s : stream) (h : Header) : stream :=
  {| s_streamFrame := s_streamFrame s; s_mode := s_mode s; recvHeader := Some h;
     recvTrailer := recvTrailer s; recvMeta := recvMeta s; s_closed := s_closed s |}.

Definition stream_set_recvTrailer (s : stream) (tl : Trailer) : stream :=
  {| s_streamFrame := s_streamFrame s; s_mode := s_mode s; recvHeader := recvHeader s;
     recvTrailer := Some tl; recvMeta := recvMeta s; s_closed := s_closed s |}.

Definition stream_set_recvMeta (s : stream) (m : gmap string string) : stream :=
  {| s_streamFrame := s_streamFrame s; s_mode := s_mode s; recvHeader := recvHeader s;
     recvTrailer := recvTrailer s; recvMeta := Some m; s_closed := s_closed s |}.

(** Modelled from the spec: [s.stream.close()] of stream.go, called by
    [streamIO.close] and [streamIO.cancel]; "marks both halves closed", here
    one flag on the stream. *)
Definition stream_close (s : stream) : stream :=
  {| s_streamFrame := s_streamFrame s; s_mode := s_mode s; recvHeader := recvHeader s;
     recvTrailer := recvTrailer s; recvMeta := recvMeta s; s_closed := true |}.

(** *** streamIO *)

Record streamIOMsg : Type := mkStreamIOMsg {
  msg_payload : list byte;
  msg_exception : option error
}.

(** The zero value of [streamIOMsg]. *)
Definition streamIOMsg_zero : streamIOMsg :=
  {| msg_payload := []; msg_exception := None |}.

(** [type streamIO struct].  [trigger] carries no data and is left out.
    [closeCallback] is [Some tt] when a callback is installed and [None] when
    the field is nil; [callbackRuns] counts how many times the installed
    function has been invoked (the callback's own effects are the
    application's). *)
Record streamIO : Type := mkStreamIO {
  sio_ctx : Context;
  sio_stream : stream;
  pipe : container.CtxPipe streamIOMsg;
  cache : streamIOMsg;
  exception : option error;
  eofFlag : Z;
  callbackFlag : Z;
  closeCallback : option unit;
  callbackRuns : nat
}.

Definition newStreamIO (ctx : Context) (s : stream) : streamIO :=
  {| sio_ctx := ctx; sio_stream := s; pipe := container.NewCtxPipe;
     cache := streamIOMsg_zero; exception := None; eofFlag := 0;
     callbackFlag := 0; closeCallback := None; callbackRuns := 0 |}.

Definition set_stream (f : stream -> stream) (s : streamIO) : streamIO :=
  {| sio_ctx := sio_ctx s; sio_stream := f (sio_stream s); pipe := pipe s;
     cache := cache s; exception := exception s; eofFlag := eofFlag s;
     callbackFlag := callbackFlag s; closeCallback := closeCallback s;
     callbackRuns := callbackRuns s |}.

Definition set_pipe (f : container.CtxPipe streamIOMsg -> container.CtxPipe streamIOMsg)
  (s : streamIO) : streamIO :=
  {| sio_ctx := sio_ctx s; sio_stream := sio_stream s; pipe := f (pipe s);
     cache := cache s; exception := exception s; eofFlag := eofFlag s;
     callbackFlag := callbackFlag s; closeCallback := closeCallback s;
     callbackRuns := callbackRuns s |}.

Definition set_cache (c : streamIOMsg) (s : streamIO) : streamIO :=
  {| sio_ctx := sio_ctx s; sio_stream := sio_stream s; pipe := pipe s;
     cache := c; exception := exception s; eofFlag := eofFlag s;
     callbackFlag := callbackFlag s; closeCallback := closeCallback s;
     callbackRuns := callbackRuns s |}.

Definition set_exception (e : option error) (s : streamIO) : streamIO :=
  {| sio_ctx := sio_ctx s; sio_stream := sio_stream s; pipe := pipe s;
     cache := cache s; exception := e; eofFlag := eofFlag s;
     callbackFlag := callbackFlag s; closeCallback := closeCallback s;
     callbackRuns := callbackRuns s |}.

Definition set_eofFlag (v : Z) (s : streamIO) : streamIO :=
  {| sio_ctx := sio_ctx s; sio_stream := sio_stream s; pipe := pipe s;
     cache := cache s; exception := exception s; eofFlag := v;
     callbackFlag := callbackFlag s; closeCallback := closeCallback s;
     callbackRuns := callbackRuns s |}.

Definition set_callbackFlag (v : Z) (s : streamIO) : streamIO :=
  {| sio_ctx := sio_ctx s; sio_stream := sio_stream s; pipe := pipe s;
     cache := cache s; exception := exception s; eofFlag := eofFlag s;
     callbackFlag := v; closeCallback := closeCallback s;
     callbackRuns := callbackRuns s |}.

Definition set_closeCallback (cb : option unit) (s : streamIO) : streamIO :=
  {| sio_ctx := sio_ctx s; sio_stream := sio_stream s; pipe := pipe s;
     cache := cache s; exception := exception s; eofFlag := eofFlag s;
     callbackFlag := callbackFlag s; closeCallback := cb;
     callbackRuns := callbackRuns s |}.

Definition set_callbackRuns (n : nat) (s : streamIO) : streamIO :=
  {| sio_ctx := sio_ctx s; sio_stream := sio_stream s; pipe := pipe s;
     cache := cache s; exception := exception s; eofFlag := eofFlag s;
     callbackFlag := callbackFlag s; closeCallback := closeCallback s;
     callbackRuns := n |}.

(** [func (s *streamIO) input(ctx, msg)]: a failed write is logged and
    dropped. *)
Definition input (ctx : Context) (msg : streamIOMsg) (s : streamIO) : streamIO :=
  let '(p', err) := container.CtxPipe_Write (pipe s) msg in
  set_pipe (fun _ => p') s.

(** [func (s *streamIO) output(ctx) (msg streamIOMsg, err error)]. *)
Definition output (ctx : Context) : M streamIO (streamIOMsg * option error) :=
  fun s =>
    match exception s with
    | Some e => (Returned (streamIOMsg_zero, Some e), s)
    | None =>
        match container.CtxPipe_Read (ctx_err ctx) (pipe s) [cache s] with
        | (Returned (n, Some err), items', p') =>
            let s1 := set_cache (default (cache s) (head items')) (set_pipe (fun _ => p') s) in
            let err := if errors_Is err ErrPipeEOF then io_EOF else err in
            let s2 := set_exception (Some err) s1 in
            (Returned (streamIOMsg_zero, exception s2), s2)
        | (Returned (n, None), items', p') =>
            let s1 := set_cache (default (cache s) (head items')) (set_pipe (fun _ => p') s) in
            if (n =? 0)%nat then
              let s2 := set_exception (Some io_EOF) s1 in
              (Returned (streamIOMsg_zero, exception s2), s2)
            else
              let msg := cache s1 in
              match msg_exception msg with
              | Some e =>
                  let s2 := set_exception (Some e) s1 in
                  (Returned (msg, exception s2), s2)
              | None => (Returned (msg, None), s1)
              end
        | (Panicked m, items', p') => (Panicked m, s)
        | (Blocked, items', p') => (Blocked, s)
        end
    end.

(** The atomic actions the close paths are made of.  Each one is a single
    step of the goroutine that runs it: a pipe operation under the pipe's
    lock, one call of sync/atomic, the stream's close, the call of the
    installed callback. *)
Definition act_pipe_Close (s : streamIO) : streamIO := set_pipe container.CtxPipe_Close s.
Definition act_pipe_Cancel (s : streamIO) : streamIO := set_pipe container.CtxPipe_Cancel s.
Definition act_stream_close (s : streamIO) : streamIO := set_stream stream_close s.

(** [s.closeCallback != nil && atomic.AddInt32(&s.eofFlag, 1) == 2]; the
    addition is not evaluated when the callback is nil. *)
Definition act_eof_test (s : streamIO) : streamIO * bool :=
  match closeCallback s with
  | None => (s, false)
  | Some _ =>
      let v := atomic_AddInt32 (eofFlag s) 1 in
      (set_eofFlag v s, bool_decide (v = 2))
  end.

(** [s.closeCallback != nil && atomic.CompareAndSwapInt32(&s.callbackFlag, 0, 1)]. *)
Definition act_callback_test (s : streamIO) : streamIO * bool :=
  match closeCallback s with
  | None => (s, false)
  | Some _ =>
      let '(v, swapped) := atomic_CompareAndSwapInt32 (callbackFlag s) 0 1 in
      (set_callbackFlag v s, swapped)
  end.

(** [s.closeCallback(s.ctx)]. *)
Definition act_callback_call (s : streamIO) : streamIO :=
  set_callbackRuns (S (callbackRuns s)) s.

(** [func (s *streamIO) runCloseCallback()]. *)
Definition runCloseCallback (s : streamIO) : streamIO :=
  let '(s1, ok) := act_callback_test s in
  if ok then act_callback_call s1 else s1.

(** [func (s *streamIO) closeRecv()]. *)
Definition closeRecv (s : streamIO) : streamIO :=
  let s1 := act_pipe_Close s in
  let '(s2, ok) := act_eof_test s1 in
  if ok then runCloseCallback s2 else s2.

(** [func (s *streamIO) closeSend()]. *)
Definition closeSend (s : streamIO) : streamIO :=
  let '(s1, ok) := act_eof_test s in
  if ok then runCloseCallback s1 else s1.

(** [func (s *streamIO) close()]. *)
Definition close (s : streamIO) : streamIO :=
  runCloseCallback (act_stream_close (act_pipe_Close s)).

(** [func (s *streamIO) cancel()]. *)
Definition cancel (s : streamIO) : streamIO :=
  runCloseCallback (act_stream_close (act_pipe_Cancel s)).

(** *** The close paths as run by several goroutines

    A goroutine is at a program point of one of the five methods above and
    has further calls to make once the current one returns.  One step of a
    goroutine is one atomic action; a schedule picks which goroutine moves
    next. *)
Inductive closeOp : Type :=
| callCloseRecv
| callCloseSend
| callClose
| callCancel
| callRunCloseCallback.

Inductive pc : Type :=
| pcCloseRecv_pipe   (* closeRecv: before s.pipe.Close() *)
| pcEofTest          (* closeRecv, closeSend: before the eofFlag test *)
| pcClose_pipe       (* close: before s.pipe.Close() *)
| pcCancel_pipe      (* cancel: before s.pipe.Cancel() *)
| pcStream_close     (* close, cancel: before s.stream.close() *)
| pcCallbackTest     (* runCloseCallback: before the callbackFlag test *)
| pcCallbackCall     (* runCloseCallback: before s.closeCallback(s.ctx) *)
| pcReturn.

Definition entry (op : closeOp) : pc :=
  match op with
  | callCloseRecv => pcCloseRecv_pipe
  | callCloseSend => pcEofTest
  | callClose => pcClose_pipe
  | callCancel => pcCancel_pipe
  | callRunCloseCallback => pcCallbackTest
  end.

Definition pc_step (c : pc) (s : streamIO) : streamIO * pc :=
  match c with
  | pcCloseRecv_pipe => (act_pipe_Close s, pcEofTest)
  | pcEofTest =>
      let '(s', ok) := act_eof_test s in
      (s', if ok then pcCallbackTest else pcReturn)
  | pcClose_pipe => (act_pipe_Close s, pcStream_close)
  | pcCancel_pipe => (act_pipe_Cancel s, pcStream_close)
  | pcStream_close => (act_stream_close s, pcCallbackTest)
  | pcCallbackTest =>
      let '(s', ok) := act_callback_test s in
      (s', if ok then pcCallbackCall else pcReturn)
  | pcCallbackCall => (act_callback_call s, pcReturn)
  | pcReturn => (s, pcReturn)
  end.

Record goroutine : Type := mkGoroutine {
  g_pc : pc;
  g_todo : list closeOp
}.

(** A goroutine that is to make the calls [ops], one after the other. *)
Definition go (ops : list closeOp) : goroutine := {| g_pc := pcReturn; g_todo := ops |}.

(** One step of a goroutine; [None] when it has finished. *)
Definition goroutine_step (g : goroutine) (s : streamIO) : option (streamIO * goroutine) :=
  match g_pc g, g_todo g with
  | pcReturn, [] => None
  | pcReturn, op :: rest => Some (s, {| g_pc := entry op; g_todo := rest |})
  | c, todo =>
      let '(s', c') := pc_step c s in
      Some (s', {| g_pc := c'; g_todo := todo |})
  end.

(** The goroutine numbered [i] moves, if there is one and it can. *)
Definition sched_step (i : nat) (m : streamIO * list goroutine) : streamIO * list goroutine :=
  match snd m !! i with
  | None => m
  | Some g =>
      match goroutine_step g (fst m) with
      | None => m
      | Some (s', g') => (s', <[i:=g']> (snd m))
      end
  end.

(** Running a schedule: the list of the goroutines that move, in order. *)
Definition run_schedule (sched : list nat) (m : streamIO * list goroutine)
  : streamIO * list goroutine :=
  fold_left (fun m i => sched_step i m) sched m.

(** *** transport *)

Definition clientTransport : Z := 1.
Definition serverTransport : Z := 2.

Definition streamCacheSize : nat := 32.
Definition frameChanSize : nat := 32.

(** [chan *Frame] with capacity [frameChanSize]: the frames buffered, oldest
    first, and whether the channel has been closed. *)
Record chan : Type := mkChan {
  ch_buf : list Frame;
  ch_closed : bool
}.

Definition make_chan : chan := {| ch_buf := []; ch_closed := false |}.

(** [[]*stream]: the slice [scache] is a window of length [sl_len] on a
    backing array of [streamCacheSize] pointers; [None] is the nil pointer. *)
Record slice : Type := mkSlice {
  sl_array : list (option stream);
  sl_len : nat
}.

Definition make_slice (len cap : nat) : slice :=
  {| sl_array := replicate cap None; sl_len := len |}.

(** What [Close] releases, in the order it does so. *)
Inductive released : Type :=
| relAcceptPipe
| relWriteChan
| relConn.

(** [type transport struct]. [lastActive] is [None] while the
    [atomic.Value] is empty, otherwise the instant in nanoseconds.
    [releases] records the releases made by [Close], oldest first. *)
Record transport : Type := mkTransport {
  kind : Z;
  sinfo : ServiceInfo;
  conn : Connection;
  streams : gmap Z streamIO;
  scache : slice;
  spipe : container.Pipe (option stream);
  wchannel : chan;
  lastActive : option Z;
  releases : list released
}.

Definition set_conn (c : Connection) (t : transport) : transport :=
  {| kind := kind t; sinfo := sinfo t; conn := c; streams := streams t;
     scache := scache t; spipe := spipe t; wchannel := wchannel t;
     lastActive := lastActive t; releases := releases t |}.

Definition set_streams (m : gmap Z streamIO) (t : transport) : transport :=
  {| kind := kind t; sinfo := sinfo t; conn := conn t; streams := m;
     scache := scache t; spipe := spipe t; wchannel := wchannel t;
     lastActive := lastActive t; releases := releases t |}.

Definition set_scache (c : slice) (t : transport) : transport :=
  {| kind := kind t; sinfo := sinfo t; conn := conn t; streams := streams t;
     scache := c; spipe := spipe t; wchannel := wchannel t;
     lastActive := lastActive t; releases := releases t |}.

Definition set_spipe (p : container.Pipe (option stream)) (t : transport) : transport :=
  {| kind := kind t; sinfo := sinfo t; conn := conn t; streams := streams t;
     scache := scache t; spipe := p; wchannel := wchannel t;
     lastActive := lastActive t; releases := releases t |}.

Definition set_wchannel (c : chan) (t : transport) : transport :=
  {| kind := kind t; sinfo := sinfo t; conn := conn t; streams := streams t;
     scache := scache t; spipe := spipe t; wchannel := c;
     lastActive := lastActive t; releases := releases t |}.

Definition set_lastActive (v : option Z) (t : transport) : transport :=
  {| kind := kind t; sinfo := sinfo t; conn := conn t; streams := streams t;
     scache := scache t; spipe := spipe t; wchannel := wchannel t;
     lastActive := v; releases := releases t |}.

Definition add_release (r : released) (t : transport) : transport :=
  {| kind := kind t; sinfo := sinfo t; conn := conn t; streams := streams t;
     scache := scache t; spipe := spipe t; wchannel := wchannel t;
     lastActive := lastActive t; releases := releases t ++ [r] |}.

(** [func newTransport(kind, sinfo, conn) *transport]. The reader loop it
    starts is [loopRead] below, driven by what the connection delivers; the
    writer loop only drains [wchannel] and is not modelled. *)
Definition newTransport (kind : Z) (sinfo : ServiceInfo) (conn : Connection) : transport :=
  {| kind := kind; sinfo := sinfo; conn := conn; streams := ∅;
     scache := make_slice 0 streamCacheSize; spipe := container.NewPipe;
     wchannel := make_chan; lastActive := None; releases := [] |}.

(** [func (t *transport) storeStreamIO(ctx, s)]. *)
Definition storeStreamIO (ctx : Context) (s : stream) : M transport unit :=
  modify (fun t => set_streams (<[stream_sid s := newStreamIO ctx s]> (streams t)) t).

(** [func (t *transport) loadStreamIO(sid) (sio *streamIO, ok bool)]. *)
Definition loadStreamIO (sid : Z) (t : transport) : option streamIO :=
  streams t !! sid.

(** A method called through the pointer held in the registry under [sid]. *)
Definition on_streamIO (sid : Z) (f : streamIO -> streamIO) : M transport unit :=
  modify (fun t => set_streams (alter f sid (streams t)) t).

(** Modelled from the spec: the constructor of stream.go, "create a new
    Stream with mode derived from the method directory; register a
    StreamIO". *)
Definition newStream (ctx : Context) (mode : StreamingMode) (smeta : streamFrame)
  : M transport stream :=
  let s := stream_new mode smeta in
  storeStreamIO ctx s ;;; ret s.

(** [func (t *transport) streamCloseRecv(s *stream) (err error)]; the
    [sio.eof()] it calls is the [closeRecv] of the streamIO at hand. *)
Definition streamCloseRecv (s : stream) : M transport (option error) :=
  t <~ get ;;
  match loadStreamIO (stream_sid s) t with
  | None => ret (Some (Errorf "stream not found in stream map: sid=%d"))
  | Some _ => on_streamIO (stream_sid s) closeRecv ;;; ret None
  end.

(** [func (t *transport) streamCancel(s *stream) (err error)]. *)
Definition streamCancel (s : stream) : M transport (option error) :=
  t <~ get ;;
  match loadStreamIO (stream_sid s) t with
  | None => ret (Some (Errorf "stream not found in stream map: sid=%d"))
  | Some _ => on_streamIO (stream_sid s) cancel ;;; ret None
  end.

(** [func (t *transport) streamClose(s *stream) (err error)]. *)
Definition streamClose (s : stream) : M transport (option error) :=
  modify (fun t => set_streams (delete (stream_sid s) (streams t)) t) ;;; ret None.

(** Modelled from the spec: the receiving methods of stream.go.  Meta:
    "deliver meta as a sidechannel on the stream"; Header on a client:
    "attach the header to the stream"; Trailer: "invoke the stream's
    remote-close transition with the trailer map; close the pipe after
    draining". *)
Definition stream_readMetaFrame (sio : streamIO) (fr : Frame) : M transport (option error) :=
  on_streamIO (stream_sid (sio_stream sio))
    (set_stream (fun s => stream_set_recvMeta s (meta (fr_streamFrame fr)))) ;;;
  ret None.

Definition stream_readHeader (sio : streamIO) (hd : Header) : M transport (option error) :=
  on_streamIO (stream_sid (sio_stream sio))
    (set_stream (fun s => stream_set_recvHeader s hd)) ;;;
  ret None.

Definition stream_readTrailer (sio : streamIO) (tl : Trailer) : M transport (option error) :=
  on_streamIO (stream_sid (sio_stream sio))
    (set_stream (fun s => stream_set_recvTrailer s tl)) ;;;
  streamCloseRecv (sio_stream sio).

(** How an iteration of a loop ends. *)
Inductive loopctl : Type :=
| loopContinue
| loopReturn (err : option error).

(** One iteration of the [for] of [func (t *transport) loopRead() error].
    [now] is what [time.Now()] gives; [dec] is what [DecodeFrame] gives on
    the connection: a frame, an error, or nothing yet ([None]: the reader
    waits for bytes). *)
Definition loopRead_iter (now : Z) (dec : option (Frame + error)) : M transport loopctl :=
  modify (set_lastActive (Some now)) ;;;
  match dec with
  | None => park
  | Some (inr err) => ret (loopReturn (Some err))
  | Some (inl fr) =>
      t <~ get ;;
      let fsid := sid (fr_streamFrame fr) in
      if bool_decide (typ fr = metaFrameType) then
        match loadStreamIO fsid t with
        | None => ret loopContinue
        | Some sio =>
            err <~ stream_readMetaFrame sio fr ;;
            match err with
            | Some e => ret (loopReturn (Some e))
            | None => ret loopContinue
            end
        end
      else if bool_decide (typ fr = headerFrameType) then
        if bool_decide (kind t = serverTransport) then
          (* Header Frame: server recv a new stream *)
          match ServiceInfo_MethodInfo (sinfo t) (method (fr_streamFrame fr)) with
          | None => panic "invalid memory address or nil pointer dereference"
          | Some mi =>
              s <~ newStream context_Background (StreamingMode_of mi) (fr_streamFrame fr) ;;
              modify (fun t => set_spipe (container.Write (spipe t) [Some s]) t) ;;;
              ret loopContinue
          end
        else if bool_decide (kind t = clientTransport) then
          (* Header Frame: client recv header *)
          match loadStreamIO fsid t with
          | None => ret loopContinue
          | Some sio =>
              err <~ stream_readHeader sio (header (fr_streamFrame fr)) ;;
              match err with
              | Some e => ret (loopReturn (Some e))
              | None => ret loopContinue
              end
          end
        else ret loopContinue
      else if bool_decide (typ fr = dataFrameType) then
        (* Data Frame: decode and distribute data *)
        match loadStreamIO fsid t with
        | None => ret loopContinue
        | Some sio =>
            on_streamIO fsid
              (input context_Background
                 {| msg_payload := payload fr; msg_exception := None |}) ;;;
            ret loopContinue
        end
      else if bool_decide (typ fr = trailerFrameType) then
        (* Trailer Frame: recv trailer, Close read direction *)
        match loadStreamIO fsid t with
        | None => ret loopContinue
        | Some sio =>
            err <~ stream_readTrailer sio (trailer (fr_streamFrame fr)) ;;
            match err with
            | Some e => ret (loopReturn (Some e))
            | None => ret loopContinue
            end
        end
      else ret loopContinue
  end.

(** [loopRead] on a connection that delivers [inputs] (each with the clock
    reading of its iteration) and then stays silent; [idle] is the clock
    reading of the iteration that finds nothing to decode. *)
Fixpoint loopRead (inputs : list (Z * (Frame + error))) (idle : Z) : M transport (option error) :=
  match inputs with
  | [] => ctl <~ loopRead_iter idle None ;; ret None
  | (now, dec) :: rest =>
      ctl <~ loopRead_iter now (Some dec) ;;
      match ctl with
      | loopContinue => loopRead rest idle
      | loopReturn err => ret err
      end
  end.

(** [t.wchannel <- frame]. *)
Definition chan_send (frame : Frame) : M transport unit :=
  fun t =>
    let c := wchannel t in
    if ch_closed c then (Panicked "send on closed channel", t)
    else if (length (ch_buf c) <? frameChanSize)%nat
    then (Returned tt, set_wchannel {| ch_buf := ch_buf c ++ [frame]; ch_closed := ch_closed c |} t)
    else (Blocked, t).

(** [close(t.wchannel)]. *)
Definition chan_close : M transport unit :=
  fun t =>
    let c := wchannel t in
    if ch_closed c then (Panicked "close of closed channel", t)
    else (Returned tt,
          add_release relWriteChan (set_wchannel {| ch_buf := ch_buf c; ch_closed := true |} t)).

(** [t.spipe.Close()]. *)
Definition spipe_Close : M transport unit :=
  modify (fun t => add_release relAcceptPipe (set_spipe (container.Close (spipe t)) t)).

(** [t.conn.Close()]. *)
Definition conn_Close : M transport (option error) :=
  fun t =>
    let c := conn t in
    (Returned (conn_close_result c),
     add_release relConn
       (set_conn {| conn_closed := true; conn_close_result := conn_close_result c |} t)).

(** [func (t *transport) Close() (err error)]. *)
Definition Close : M transport (option error) :=
  spipe_Close ;;;
  chan_close ;;;
  err <~ conn_Close ;;
  ret err.

(** [time.Time.Sub]: the difference as a [Duration], an int64 count of
    nanoseconds, saturated at the ends of its range. *)
Definition maxDuration : Z := 9223372036854775807.
Definition minDuration : Z := -9223372036854775808.

Definition time_Sub (t u : Z) : Z :=
  let d := t - u in
  if d <? minDuration then minDuration
  else if maxDuration <? d then maxDuration
  else d.

Definition time_Minute : Z := 60 * 1000000000.

(** [func (t *transport) Available() bool], at clock reading [now]. *)
Definition Available (now : Z) (t : transport) : bool :=
  match lastActive t with
  | None => true
  | Some la => time_Sub now la <? time_Minute * 10
  end.

Section Codec.
(** The payload codec is a collaborator: [Data] stands for the application
    values that implement it, [EncodePayload] turns one into bytes or fails,
    [DecodePayload] fills the caller's value from bytes and answers an error
    or nil. *)
Context {Data : Type}.
Variable EncodePayload : Data -> list byte + error.
Variable DecodePayload : list byte -> Data -> Data * option error.

(** [func (t *transport) writeFrame(meta, ftype, data any) (err error)];
    [data] is [None] for nil. *)
Definition writeFrame (meta : streamFrame) (ftype : Z) (data : option Data)
  : M transport (option error) :=
  let encoded :=
    match data with
    | Some d => EncodePayload d
    | None => inl []
    end in
  match encoded with
  | inr err => ret (Some err)
  | inl payload =>
      let frame := newFrame meta ftype payload in
      chan_send frame ;;;
      ret None
  end.

(** [func (t *transport) streamSendHeader(sid, method, header)]. *)
Definition streamSendHeader (sid : Z) (method : string) (header : Header)
  : M transport (option error) :=
  writeFrame (streamFrame_lit sid method header ∅) headerFrameType None.

(** [func (t *transport) streamSendTrailer(sid, method, trailer)]. *)
Definition streamSendTrailer (sid : Z) (method : string) (trailer : Trailer)
  : M transport (option error) :=
  writeFrame (streamFrame_lit sid method ∅ trailer) trailerFrameType None.

(** [func (t *transport) streamSend(sid, method, wheader, res any)]. *)
Definition streamSend (sid : Z) (method : string) (wheader : Header) (res : option Data)
  : M transport (option error) :=
  let send := writeFrame (streamFrame_lit sid method ∅ ∅) dataFrameType res in
  if (0 <? size wheader)%nat then
    err <~ streamSendHeader sid method wheader ;;
    match err with
    | Some e => ret (Some e)
    | None => send
    end
  else send.

(** [func (t *transport) streamRecv(sid, data any) (err error)].  The
    caller's value comes back as the codec left it.  The call of
    [sio.output] runs on the streamIO the registry points to; freeing the
    payload and recycling the frame leave no trace in the model. *)
Definition streamRecv (sid : Z) (data : Data) : M transport (Data * option error) :=
  fun t =>
    match loadStreamIO sid t with
    | None => (Returned (data, Some io_EOF), t)
    | Some sio =>
        match output context_Background sio with
        | (Returned (f, Some err), sio') =>
            (Returned (data, Some err), set_streams (<[sid := sio']> (streams t)) t)
        | (Returned (f, None), sio') =>
            let '(data', err) := DecodePayload (msg_payload f) data in
            (Returned (data', None), set_streams (<[sid := sio']> (streams t)) t)
        | (Panicked m, sio') => (Panicked m, set_streams (<[sid := sio']> (streams t)) t)
        | (Blocked, sio') => (Blocked, set_streams (<[sid := sio']> (streams t)) t)
        end
    end.

(** [func (t *transport) newStream(ctx, method, header)], returning a stream pointer and an error.
    The state is the package variable [clientStreamID] together with the
    transport. *)
Definition transport_newStream (ctx : Context) (method : string) (header : Header)
  : M (Z * transport) (option stream * option error) :=
  fun '(clientStreamID, t) =>
    if negb (bool_decide (kind t = clientTransport)) then
      (Returned (None, Some (Errorf "transport already be used as other kind")),
       (clientStreamID, t))
    else
      let sid := atomic_AddInt32 clientStreamID 1 in
      match ServiceInfo_MethodInfo (sinfo t) method with
      | None => (Panicked "invalid memory address or nil pointer dereference", (sid, t))
      | Some mi =>
          let smode := StreamingMode_of mi in
          let smeta := streamFrame_lit sid method header ∅ in
          let body :=
            s <~ newStream ctx smode smeta ;;
            err <~ writeFrame smeta headerFrameType None ;;
            ret (s, err) in
          match body t with
          | (Returned (s, Some err), t') => (Returned (None, Some err), (sid, t'))
          | (Returned (s, None), t') => (Returned (Some s, None), (sid, t'))
          | (Panicked m, t') => (Panicked m, (sid, t'))
          | (Blocked, t') => (Blocked, (sid, t'))
          end
      end.

End Codec.

(** The part of [readStream] from the [READ:] label on. [fuel] bounds the
    passes through the label and is handed on to [Pipe.Read]. *)
Fixpoint readStream_READ (fuel : nat) (t : transport)
  : option (outcome (option stream * option error) * transport) :=
  match fuel with
  | O => None
  | S fuel' =>
      let sc := scache t in
      if (0 <? sl_len sc)%nat then
        match sl_array sc !! (sl_len sc - 1)%nat with
        | Some s =>
            Some (Returned (s, None),
                  set_scache {| sl_array := sl_array sc; sl_len := sl_len sc - 1 |} t)
        | None => Some (Panicked "index out of range", t)
        end
      else if (length (sl_array sc) <? streamCacheSize)%nat then
        Some (Panicked "slice bounds out of range", t)
      else
        let items := take streamCacheSize (sl_array sc) in
        let rest := drop streamCacheSize (sl_array sc) in
        match container.Read fuel' (spipe t) items with
        | None => None
        | Some (res, items', p') =>
            let t' := set_scache {| sl_array := items' ++ rest; sl_len := sl_len sc |}
                        (set_spipe p' t) in
            match res with
            | Returned (n, Some err) =>
                if errors_Is err ErrPipeEOF
                then Some (Returned (None, Some io_EOF), t')
                else Some (Returned (None, Some err), t')
            | Returned (n, None) =>
                if (n =? 0)%nat then Some (Panicked "Assert: N == 0 !", t')
                else
                  readStream_READ fuel'
                    (set_scache {| sl_array := items' ++ rest; sl_len := n |} t')
            | Panicked m => Some (Panicked m, t')
            | Blocked => Some (Blocked, t')
            end
        end
  end.

(** [func (t *transport) readStream()], returning a stream pointer and an error. *)
Definition readStream (fuel : nat) (t : transport)
  : option (outcome (option stream * option error) * transport) :=
  if negb (bool_decide (kind t = serverTransport)) then
    Some (Returned (None, Some (Errorf "transport already be used as other kind")), t)
  else readStream_READ fuel t.

(** [readStream] called [k] times in a row by the accepting goroutine: the
    results of the calls, in order, as long as each one returns. *)
Fixpoint readStreams (fuel k : nat) (t : transport)
  : option (list (option stream * option error) * transport) :=
  match k with
  | O => Some ([], t)
  | S k' =>
      match readStream fuel t with
      | Some (Returned r, t') =>
          match readStreams fuel k' t' with
          | Some (rs, t'') => Some (r :: rs, t'')
          | None => None
          end
      | _ => None
      end
  end.

(** *** The writer loop *)

(** The writer half of the connection as the writer loop sees it: the frames
    encoded since the last flush and the frames flushed to the peer, oldest
    first. *)
Record connWriter : Type := mkConnWriter {
  w_buffered : list Frame;
  w_flushed : list Frame
}.

Section WriterLoop.
(** Collaborators: the error [EncodeFrame] answers for a frame and the error
    the connection's [Flush] answers for the frames it is asked to flush
    ([None]: success). *)
Variable EncodeFrame_err : Frame -> option error.
Variable Flush_err : list Frame -> option error.

(** Modelled from the spec: [EncodeFrame] of frame.go is not among the
    sources; "encode(writer, frame) writes the above and returns error only
    on writer failure". *)
Definition EncodeFrame (frame : Frame) (w : connWriter) : connWriter * option error :=
  match EncodeFrame_err frame with
  | Some e => (w, Some e)
  | None => ({| w_buffered := w_buffered w ++ [frame]; w_flushed := w_flushed w |}, None)
  end.

(** [t.conn.Writer().Flush()]. *)
Definition Writer_Flush (w : connWriter) : connWriter * option error :=
  match Flush_err (w_buffered w) with
  | Some e => (w, Some e)
  | None => ({| w_buffered := []; w_flushed := w_flushed w ++ w_buffered w |}, None)
  end.

(** [func (t *transport) loopWrite() (err error)], run on its own: a receive
    on the empty open channel parks the loop, on the empty closed channel it
    ends the loop. [fuel] bounds the iterations. *)
Fixpoint loopWrite (fuel : nat) (st : transport * connWriter)
  : option (outcome (option error) * (transport * connWriter)) :=
  match fuel with
  | O => None
  | S fuel' =>
      let '(t, w) := st in
      let c := wchannel t in
      match ch_buf c with
      | [] =>
          if ch_closed c then Some (Returned None, st) else Some (Blocked, st)
      | frame :: rest =>
          let t' := set_wchannel {| ch_buf := rest; ch_closed := ch_closed c |} t in
          match EncodeFrame frame w with
          | (w', Some err) => Some (Returned (Some err), (t', w'))
          | (w', None) =>
              if (length (ch_buf (wchannel t')) =? 0)%nat then
                match Writer_Flush w' with
                | (w'', Some err) => Some (Returned (Some err), (t', w''))
                | (w'', None) => loopWrite fuel' (t', w'')
                end
              else loopWrite fuel' (t', w')
          end
      end
  end.

End WriterLoop.

(** *** connBuffer *)

(** [netpoll.Reader], as [connBuffer] uses it: the bytes that have arrived
    and are not yet consumed.  [Next] and [Skip] consume [n] bytes when that
    many are there and fail otherwise; [Peek] is [Next] without consuming;
    [Release] always succeeds. *)
Definition netpoll_Reader : Type := list byte.

Definition errNotEnough : error := ErrExternal "connection read".

Definition Reader_Next (n : nat) (r : netpoll_Reader)
  : list byte * option error * netpoll_Reader :=
  if (n <=? length r)%nat then (take n r, None, drop n r)
  else ([], Some errNotEnough, r).

Definition Reader_Peek (n : nat) (r : netpoll_Reader) : list byte * option error :=
  if (n <=? length r)%nat then (take n r, None) else ([], Some errNotEnough).

Definition Reader_Skip (n : nat) (r : netpoll_Reader) : option error * netpoll_Reader :=
  if (n <=? length r)%nat then (None, drop n r) else (Some errNotEnough, r).

(** Go's [int] on a 64-bit platform, with its wrap-around. *)
Definition int_wrap (z : Z) : Z :=
  (z + 9223372036854775808) mod 18446744073709551616 - 9223372036854775808.

Definition MaxInt : Z := 9223372036854775807.

(** [type connBuffer struct], reading side: the connection's reader and
    [readSize]. The writing side ([Malloc], [WriteBinary], [WrittenLen],
    [Flush]) hands out slices of the connection's own buffer and is not
    modelled. *)
Record connBuffer : Type := mkConnBuffer {
  cb_reader : netpoll_Reader;
  readSize : Z
}.

(** [func newConnBuffer(conn) *connBuffer]. *)
Definition newConnBuffer (r : netpoll_Reader) : connBuffer :=
  {| cb_reader := r; readSize := 0 |}.

(** [func (c *connBuffer) Next(n int) (p []byte, err error)]. *)
Definition connBuffer_Next (n : nat) (c : connBuffer) : list byte * option error * connBuffer :=
  let '(p, err, r') := Reader_Next n (cb_reader c) in
  (p, err, {| cb_reader := r'; readSize := int_wrap (readSize c + Z.of_nat (length p)) |}).

(** [func (c *connBuffer) ReadBinary(bs []byte) (n int, err error)]: the
    caller's slice as left, the count and the error. *)
Definition connBuffer_ReadBinary (bs : list byte) (c : connBuffer)
  : list byte * Z * option error * connBuffer :=
  let n := length bs in
  match Reader_Next n (cb_reader c) with
  | (buf, Some err, r') => (bs, 0, Some err, {| cb_reader := r'; readSize := readSize c |})
  | (buf, None, r') =>
      (* copy(bs, buf) *)
      (take (length bs) buf ++ drop (length buf) bs, Z.of_nat n, None,
       {| cb_reader := r'; readSize := int_wrap (readSize c + Z.of_nat n) |})
  end.

(** [func (c *connBuffer) Peek(n int) (buf []byte, err error)]. *)
Definition connBuffer_Peek (n : nat) (c : connBuffer) : list byte * option error :=
  Reader_Peek n (cb_reader c).

(** [func (c *connBuffer) Skip(n int) (err error)]. *)
Definition connBuffer_Skip (n : nat) (c : connBuffer) : option error * connBuffer :=
  match Reader_Skip n (cb_reader c) with
  | (Some err, r') => (Some err, {| cb_reader := r'; readSize := readSize c |})
  | (None, r') => (None, {| cb_reader := r'; readSize := int_wrap (readSize c + Z.of_nat n) |})
  end.

(** [func (c *connBuffer) ReadLen() (n int)]. *)
Definition connBuffer_ReadLen (c : connBuffer) : Z := readSize c.

(** [func (c *connBuffer) Release(e error) (err error)]. *)
Definition connBuffer_Release (c : connBuffer) : option error * connBuffer :=
  (None, {| cb_reader := cb_reader c; readSize := 0 |}).

(** The calls a frame decoder makes on the reading side. *)
Inductive readCall : Type :=
| rcNext (n : nat)
| rcReadBinary (bs : list byte)
| rcPeek (n : nat)
| rcSkip (n : nat).

Definition connBuffer_call (rc : readCall) (c : connBuffer) : connBuffer :=
  match rc with
  | rcNext n => snd (connBuffer_Next n c)
  | rcReadBinary bs => snd (connBuffer_ReadBinary bs c)
  | rcPeek n => c
  | rcSkip n => snd (connBuffer_Skip n c)
  end.

End ttstream.

(** ** Package streamxcallopt *)

Module streamxcallopt.

Section CallOptions.
(** [type StreamCloseCallback func()]: the functions themselves are the
    application's. *)
Context {StreamCloseCallback : Type}.

(** [type CallOptions struct]. *)
Record CallOptions : Type := mkCallOptions {
  StreamCloseCallbacks : list StreamCloseCallback
}.

(** [type CallOption struct { f func(o *CallOptions) }]: what [f] does to
    the options it is pointed at. *)
Record CallOption : Type := mkCallOption {
  f : CallOptions -> CallOptions
}.

(** [func (copts *CallOptions) Apply(opts []CallOption)]. *)
Definition Apply (copts : CallOptions) (opts : list CallOption) : CallOptions :=
  fold_left (fun o opt => f opt o) opts copts.

(** [func WithStreamCloseCallback(callback) CallOption]. *)
Definition WithStreamCloseCallback (callback : StreamCloseCallback) : CallOption :=
  {| f := fun o => {| StreamCloseCallbacks := StreamCloseCallbacks o ++ [callback] |} |}.

(** A [context.Context] as a chain of values, innermost first. The key type
    [ctxKeyCallOptions] is private to the package; other packages' keys are
    told apart by a name. A value is a pointer to call options or something
    else. *)
Inductive ctxKey : Type :=
| ctxKeyCallOptions
| ctxKeyOther (name : string).

Inductive ctxValue : Type :=
| valCallOptions (p : nat)
| valOther (v : string).

Definition valueCtx : Type := list (ctxKey * ctxValue).

Definition ctxKey_eqb (a b : ctxKey) : bool :=
  match a, b with
  | ctxKeyCallOptions, ctxKeyCallOptions => true
  | ctxKeyOther x, ctxKeyOther y => bool_decide (x = y)
  | _, _ => false
  end.

(** [ctx.Value(key)]; [None] is nil. *)
Fixpoint ctx_Value (ctx : valueCtx) (key : ctxKey) : option ctxValue :=
  match ctx with
  | [] => None
  | (k, v) :: parent => if ctxKey_eqb k key then Some v else ctx_Value parent key
  end.

(** [func NewCtxWithCallOptions(ctx) (context.Context, *CallOptions)]. [h]
    holds the call options allocated so far, by address; [new(CallOptions)]
    takes an address not in use. *)
Definition NewCtxWithCallOptions (ctx : valueCtx) (h : gmap nat CallOptions)
  : valueCtx * nat * gmap nat CallOptions :=
  let p := fresh (dom h) in
  ((ctxKeyCallOptions, valCallOptions p) :: ctx, p,
   <[p := {| StreamCloseCallbacks := [] |}]> h).

(** [func GetCallOptionsFromCtx(ctx) *CallOptions]. *)
Definition GetCallOptionsFromCtx (ctx : valueCtx) : option nat :=
  match ctx_Value ctx ctxKeyCallOptions with
  | None => None
  | Some (valCallOptions p) => Some p
  | Some _ => None
  end.

(** [copts.Apply(opts)] through the pointer [p]. *)
Definition Apply_at (p : nat) (opts : list CallOption) (h : gmap nat CallOptions)
  : gmap nat CallOptions :=
  alter (fun o => Apply o opts) p h.

End CallOptions.

Arguments CallOptions StreamCloseCallback : clear implicits.
Arguments CallOption StreamCloseCallback : clear implicits.

End streamxcallopt.

Import ttstream.

(** ** Vocabulary of the statements *)

(** What one [Read] call handed to its caller: the first [n] entries of the
    slice; a call that returned items; a call that returned end of file. *)
Definition read_items {Item : Type} (r : nat * option error * list Item) : list Item :=
  take (fst (fst r)) (snd r).

Definition read_ok {Item : Type} (r : nat * option error * list Item) : Prop :=
  (1 <= fst (fst r))%nat /\ snd (fst r) = None.

Definition read_eof {Item : Type} (r : nat * option error * list Item) : Prop :=
  fst (fst r) = 0%nat /\ snd (fst r) = Some container.PipeEOF.

(** The method a goroutine's call stands for. *)
Definition call (op : closeOp) : streamIO -> streamIO :=
  match op with
  | callCloseRecv => closeRecv
  | callCloseSend => closeSend
  | callClose => close
  | callCancel => cancel
  | callRunCloseCallback => runCloseCallback
  end.

(** Goroutines that have won the [callbackFlag] test and are about to call
    the callback. *)
Definition at_call (g : goroutine) : nat :=
  match g_pc g with
  | pcCallbackCall => 1
  | _ => 0
  end.

Fixpoint pending_calls (gs : list goroutine) : nat :=
  match gs with
  | [] => 0
  | g :: gs' => at_call g + pending_calls gs'
  end.

(** Whether the [callbackFlag] test can still be won. *)
Definition may_win (s : streamIO) : nat :=
  if bool_decide (callbackFlag s = 0) then 1%nat else 0%nat.

(** Calls made, calls about to be made, and the one that may still be won:
    this sum never grows. *)
Definition budget (m : streamIO * list goroutine) : nat :=
  (callbackRuns (fst m) + pending_calls (snd m) + may_win (fst m))%nat.

(** The transport that [Close] leaves behind when it returns. *)
Definition after_Close (t : transport) : transport :=
  {| kind := kind t; sinfo := sinfo t;
     conn := {| conn_closed := true; conn_close_result := conn_close_result (conn t) |};
     streams := streams t; scache := scache t;
     spipe := {| container.queue := container.queue (spipe t); container.closed := true |};
     wchannel := {| ch_buf := ch_buf (wchannel t); ch_closed := true |};
     lastActive := lastActive t;
     releases := releases t ++ [relAcceptPipe; relWriteChan; relConn] |}.

(** What [readStream] hands to the acceptor for a stream. *)
Definition accepted (s : stream) : option stream * option error := (Some s, None).

(** *** Concrete inputs *)

Definition example_sinfo : ServiceInfo :=
  {| Methods := {[ "echo"%string :=
                     {| StreamingMode_of := StreamingBidirectional; OneWay := false |} ]} |}.

Definition example_conn : Connection :=
  {| conn_closed := false; conn_close_result := None |}.

Definition example_server : transport := newTransport serverTransport example_sinfo example_conn.
Definition example_client : transport := newTransport clientTransport example_sinfo example_conn.

Definition header_frame (sid : Z) (method : string) : Frame :=
  newFrame (streamFrame_lit sid method ∅ ∅) headerFrameType [].

Definition data_frame (sid : Z) (method : string) (payload : list byte) : Frame :=
  newFrame (streamFrame_lit sid method ∅ ∅) dataFrameType payload.

Definition example_stream (sid : Z) : stream :=
  stream_new StreamingBidirectional (streamFrame_lit sid "echo" ∅ ∅).

(** A codec for [unit] values: encoding gives no bytes, decoding fails. *)
Definition unit_encode (d : unit) : list byte + error := inl [].

Definition failing_decode (bs : list byte) (d : unit) : unit * option error :=
  (d, Some (ErrExternal "decode")).

(** A client transport with stream 1 registered and one Data frame for it
    taken in by the reader loop. *)
Definition example_receiving : transport :=
  snd (loopRead_iter 7 (Some (inl (data_frame 1 "echo" [x01; x02])))
         (snd (storeStreamIO context_Background (example_stream 1) example_client))).

(** A streamIO with a close callback installed. *)
Definition example_streamIO : streamIO :=
  set_closeCallback (Some tt) (newStreamIO context_Background (example_stream 1)).

(** A server transport after the reader loop took in three Header frames. *)
Definition example_accepting : transport :=
  snd (loopRead [(1, inl (header_frame 1 "echo")); (2, inl (header_frame 3 "echo"));
                 (3, inl (header_frame 5 "echo"))] 4 example_server).


(** *** Vocabulary of the further statements *)

(** The two half-close calls, the two calls that close the stream at once. *)
Definition half_close (op : closeOp) : bool :=
  match op with
  | callCloseRecv | callCloseSend => true
  | _ => false
  end.

Definition full_close (op : closeOp) : bool :=
  match op with
  | callClose | callCancel => true
  | _ => false
  end.

(** A goroutine that is not about to call the callback. *)
Definition not_at_call (g : goroutine) : Prop := g_pc g <> pcCallbackCall.

(** The transport with everything taken out of the write channel. *)
Definition chan_drained (t : transport) : transport :=
  set_wchannel {| ch_buf := []; ch_closed := ch_closed (wchannel t) |} t.

(** *** Further concrete inputs *)

Definition example_bare_streamIO : streamIO :=
  newStreamIO context_Background (example_stream 1).

Definition example_msg : streamIOMsg :=
  {| msg_payload := [x01; x02]; msg_exception := None |}.

Definition example_loaded_streamIO : streamIO :=
  input context_Background example_msg example_bare_streamIO.

(** A client transport with stream 1 registered. *)
Definition example_registered : transport :=
  snd (storeStreamIO context_Background (example_stream 1) example_client).

(** A codec for byte strings: decoding hands over the payload. *)
Definition bytes_decode (bs : list byte) (d : list byte) : list byte * option error :=
  (bs, None).

Definition failing_encode (d : unit) : list byte + error := inr (ErrExternal "encode").

Definition example_header : gmap string string := {[ "k"%string := "v"%string ]}.

(** A client transport after a [streamSend] with a header. *)
Definition example_sending : transport :=
  snd (streamSend unit_encode 1 "echo" example_header (Some tt) example_client).

Definition example_writer : connWriter := {| w_buffered := []; w_flushed := [] |}.

(** Frame collaborators: nothing fails; Data frames fail to encode. *)
Definition encode_ok (fr : Frame) : option error := None.
Definition flush_ok (frs : list Frame) : option error := None.
Definition encode_no_data (fr : Frame) : option error :=
  if bool_decide (typ fr = dataFrameType) then Some (ErrExternal "encode frame") else None.

(** A closed pipe that still holds three items. *)
Definition example_pipe : container.Pipe nat :=
  {| container.queue := [1; 2; 3]%nat; container.closed := true |}.

Definition example_streams : list stream :=
  [example_stream 1; example_stream 3; example_stream 5].

Definition example_header_frame : Frame :=
  newFrame (streamFrame_lit 1 "echo" example_header ∅) headerFrameType [].

Definition example_data_frame : Frame :=
  newFrame (streamFrame_lit 1 "echo" ∅ ∅) dataFrameType [].

(** A connection buffer on three arrived bytes. *)
Definition example_connBuffer : connBuffer := newConnBuffer [x01; x02; x03].

(** A server transport with streams left in the cache and others waiting in
    the accept pipe: [example_accepting] after one [readStream], which
    returned stream 5 and kept 1 and 3 in the cache, and then Header frames
    for the streams 7 and 9. *)
Definition example_cached : transport :=
  match readStream 2 example_accepting with
  | Some (_, t) =>
      snd (loopRead [(5, inl (header_frame 7 "echo")); (6, inl (header_frame 9 "echo"))] 7 t)
  | None => example_accepting
  end.
(** ** The pipe *)

Section PipeFacts.
Import container.
Context {Item : Type}.
Implicit Types (q items : list Item) (p : Pipe Item).

Local Open Scope nat_scope.

Lemma Queue_Add_fold q xs : fold_left Queue_Add xs q = q ++ xs.
Proof.
  revert q. induction xs as [|x xs IH]; intros q; simpl.
  - by rewrite app_nil_r.
  - rewrite IH. unfold Queue_Add. by rewrite <- app_assoc.
Qed.

Lemma Write_fold (ws : list (list Item)) : forall p,
  fold_left Write ws p = {| queue := queue p ++ concat ws; closed := closed p |}.
Proof.
  induction ws as [|w ws IH]; intros p; simpl.
  - rewrite app_nil_r. by destruct p.
  - rewrite IH. unfold Write. simpl. by rewrite Queue_Add_fold, <- app_assoc.
Qed.

(** The loop of [Read] moves the first [rem] items of the queue, or all of
    them when there are fewer, to the slice from index [i] on. *)
Lemma Read_for_eq rem : forall i q items n,
  i + rem <= length items ->
  Read_for rem i q items n =
    (drop rem q,
     take i items ++ take rem q ++ drop (i + length (take rem q)) items,
     n + length (take rem q)).
Proof.
  induction rem as [|rem IH]; intros i q items n Hlen.
  - simpl. rewrite drop_0, Nat.add_0_r, Nat.add_0_r. by rewrite take_drop.
  - destruct q as [|v q]; simpl.
    + rewrite Nat.add_0_r, Nat.add_0_r, take_drop. by destruct (0 <? i).
    + rewrite IH by (rewrite length_insert; lia).
      f_equal; [f_equal|lia].
      assert (Hi : i < length items) by lia.
      rewrite (take_S_r _ i v) by (by apply list_lookup_insert_eq).
      rewrite take_insert_ge by lia.
      rewrite drop_insert_lt by lia.
      rewrite <- app_assoc. simpl. by rewrite Nat.add_succ_r.
Qed.

(** With something queued and room in the slice, [Read] returns on its first
    pass with as many items as fit. *)
Lemma Read_nonempty fuel p items :
  1 <= length items -> queue p <> [] ->
  Read (S fuel) p items =
    Some (Returned (length (take (length items) (queue p)), None),
          take (length items) (queue p) ++
            drop (length (take (length items) (queue p))) items,
          {| queue := drop (length items) (queue p); closed := closed p |}).
Proof.
  intros Hk Hq. simpl. rewrite Read_for_eq by lia. simpl.
  destruct (queue p) as [|v q] eqn:E; [done|].
  destruct (length items) as [|k] eqn:Ek; [lia|]. simpl. done.
Qed.

(** With nothing queued, [Read] reports end of file on a closed pipe and
    waits on an open one. *)
Lemma Read_drained fuel p items :
  queue p = [] ->
  Read (S fuel) p items =
    Some (if closed p then Returned (0, Some PipeEOF) else Blocked, items, p).
Proof.
  intros Hq. simpl. rewrite Read_for_eq by lia. rewrite Hq. simpl.
  rewrite drop_nil, take_nil. simpl. rewrite drop_0.
  destruct p as [q c]; simpl in *; subst. by destruct c.
Qed.

(** A slice of length zero on a pipe that holds items: [Read] goes round the
    [READ:] label for ever. *)
Lemma Read_spin fuel p items :
  length items = 0 -> queue p <> [] -> Read fuel p items = None.
Proof.
  revert p items. induction fuel as [|fuel IH]; intros p items Hk Hq; [done|].
  simpl. rewrite Read_for_eq by lia. rewrite Hk. simpl.
  destruct (queue p) as [|v q] eqn:E; [done|]. simpl.
  apply IH; [|done]. simpl. by rewrite drop_0.
Qed.

(** Successive reads of a closed pipe: a run of reads that return items, then
    end of file; what was handed out followed by what is left is the queue. *)
Lemma Reads_closed fuel bufs : forall q,
  Forall (fun items => 1 <= length items) bufs ->
  exists rs q',
    Reads (S fuel) {| queue := q; closed := true |} bufs
      = Some (rs, {| queue := q'; closed := true |})
    /\ length rs = length bufs
    /\ concat (read_items <$> rs) ++ q' = q
    /\ exists j, j <= length q /\ Forall read_ok (take j rs) /\ Forall read_eof (drop j rs)
           /\ (j < length rs -> q' = []).
Proof.
  induction bufs as [|items bufs IH]; intros q Hb.
  - exists [], q. simpl. split; [done|]. split; [done|]. split; [done|].
    exists 0. repeat split; try constructor; try lia.
  - inversion Hb as [|? ? Hk Hb']; subst.
    destruct q as [|v q].
    + destruct (IH [] Hb') as (rs & q' & Hrs & Hlen & Hcat & j & Hj & Hok & Heof & Hq').
      simpl in Hj. assert (j = 0) by lia. subst j. rewrite drop_0 in Heof.
      assert (q' = []) as -> by (by destruct (concat (read_items <$> rs)), q').
      exists ((0, Some PipeEOF, items) :: rs), [].
      cbn [Reads]. rewrite Read_drained by done. cbn -[Read].
      rewrite Hrs. split; [done|]. split; [simpl; lia|].
      split; [simpl; by rewrite app_nil_r in Hcat |- *|].
      exists 0. rewrite drop_0. repeat split; try constructor; try done.
    + set (qq := v :: q) in *.
      destruct (IH (drop (length items) qq) Hb')
        as (rs & q' & Hrs & Hlen & Hcat & j & Hj & Hok & Heof & Hq').
      eexists (_ :: rs), q'.
      cbn [Reads]. rewrite Read_nonempty by done. cbn -[Read take drop length].
      rewrite Hrs. split; [done|]. split; [simpl; lia|].
      split.
      { cbn -[take drop]. unfold read_items at 1. cbn -[take drop].
        rewrite take_app_length. rewrite <- app_assoc, Hcat. apply take_drop. }
      exists (S j). cbn -[take drop length].
      assert (Hpos : 1 <= length (take (length items) qq)).
      { rewrite length_take. subst qq. simpl. lia. }
      split. { rewrite length_drop in Hj. rewrite length_take in Hpos. lia. }
      split. { simpl. constructor; [|done]. split; [|done]. exact Hpos. }
      split; [done|]. simpl. intros ?. apply Hq'. lia.
Qed.

Lemma take_length_take (k : nat) (l : list Item) : take (length (take k l)) l = take k l.
Proof.
  rewrite length_take.
  destruct (Nat.min_spec k (length l)) as [[? ->]|[? ->]]; [done|].
  by rewrite firstn_all, take_ge by lia.
Qed.

(** A [Read] that returns has either taken a positive number of items from
    the head of the queue, or found an empty queue on a closed pipe. *)
Lemma Read_returned fuel p items n err items' p' :
  Read fuel p items = Some (Returned (n, err), items', p') ->
  (err = None /\ 1 <= n /\ take n items' = take n (queue p)
   /\ queue p = take n (queue p) ++ queue p' /\ closed p' = closed p)
  \/ (err = Some PipeEOF /\ n = 0 /\ closed p = true /\ queue p = [] /\ p' = p).
Proof.
  destruct fuel as [|fuel]; [done|]. intros H.
  destruct (queue p) as [|v q] eqn:Hq.
  - rewrite Read_drained in H by done. destruct (closed p) eqn:Hc; [|done].
    inversion H; subst. by right.
  - destruct (decide (length items = 0)) as [Hz|Hnz].
    + rewrite Read_spin in H; [done|done|by rewrite Hq].
    + rewrite Read_nonempty in H; [|lia|by rewrite Hq].
      inversion H; subst; clear H. left. rewrite Hq. cbn [queue closed].
      split; [done|]. split; [rewrite length_take; simpl; lia|].
      split; [by rewrite take_app_length, take_length_take|].
      split; [|done].
      by rewrite take_length_take, take_drop.
Qed.

(** While the pipe is open, every read that returns has items, and what has
    been read so far followed by what is queued is what was queued at the
    start followed by what has been written since. *)
Lemma Calls_open fuel cs : forall p rs p',
  closed p = false ->
  Calls fuel p cs = Some (rs, p') ->
  closed p' = false
  /\ Forall read_ok rs
  /\ concat (read_items <$> rs) ++ queue p' = queue p ++ written cs.
Proof.
  induction cs as [|[items|items] cs IH]; intros p rs p' Hc H; simpl in H.
  - inversion H; subst. simpl. by rewrite app_nil_r.
  - destruct (IH (Write p items) _ _ Hc H) as (Hc' & Hok & Hcat).
    split; [done|]. split; [done|].
    rewrite Hcat. simpl. by rewrite Queue_Add_fold, <- app_assoc.
  - destruct (Read fuel p items) as [[[[[n err]|m|] items'] p1]|] eqn:HR; try done.
    destruct (Calls fuel p1 cs) as [[rs1 p2]|] eqn:HC; [|done].
    inversion H; subst; clear H.
    apply Read_returned in HR as [(-> & Hn & Htake & Hq & Hc1)|(_ & _ & Hcl & _)];
      [|congruence].
    destruct (IH _ _ _ (eq_trans Hc1 Hc) HC) as (Hc' & Hok & Hcat).
    split; [done|]. split; [by constructor|].
    cbn [fmap list_fmap concat]. unfold read_items at 1. cbn [fst snd].
    rewrite <- app_assoc, Hcat, Htake, app_assoc, <- Hq. done.
Qed.

Lemma Calls_writes fuel (ws : list (list Item)) : forall p,
  Calls fuel p (callWrite <$> ws) = Some ([], fold_left Write ws p)
  /\ written (callWrite <$> ws) = concat ws.
Proof.
  induction ws as [|w ws IH]; intros p; [done|].
  rewrite fmap_cons. cbn [Calls written fold_left concat].
  destruct (IH (Write p w)) as [H1 H2]. by rewrite H1, H2.
Qed.

(** C6. A writer and a single reader on a new pipe: any sequence of [Write]
    calls, with [Read] calls of the reader in between wherever they find
    items, followed by [Close]; after that the reader calls [Read] with
    non-empty slices more often than there are items left. Then every one of
    these later calls returns. All calls that return items have a nil error
    and at least one item, and the items read, put end to end over the whole
    run, are exactly the items written, in the order written: nothing is
    dropped or reordered. Once the queue is drained every call returns count
    zero and the end-of-file error, and there is at least one such call. *)
Theorem Pipe_writes_close_reads (cs : list (pipeCall Item)) (bufs : list (list Item))
    (fuel : nat) rs1 p1 :
  1 <= fuel ->
  Calls fuel NewPipe cs = Some (rs1, p1) ->
  Forall (fun items => 1 <= length items) bufs ->
  length (queue p1) < length bufs ->
  exists rs2 p2,
    Reads fuel (Close p1) bufs = Some (rs2, p2)
    /\ concat (read_items <$> (rs1 ++ rs2)) = written cs
    /\ Forall read_ok rs1
    /\ exists j, j < length rs2
         /\ Forall read_ok (take j rs2) /\ Forall read_eof (drop j rs2).
Proof.
  intros Hfuel Hrun Hb Hn. destruct fuel as [|fuel]; [lia|].
  destruct (Calls_open _ _ NewPipe _ _ eq_refl Hrun) as (Hc1 & Hok1 & Hcat1).
  simpl in Hcat1.
  destruct (Reads_closed fuel bufs (queue p1) Hb)
    as (rs2 & q' & Hrs & Hlen & Hcat & j & Hj & Hok & Heof & Hq').
  assert (Hjl : j < length rs2) by lia.
  exists rs2, {| queue := q'; closed := true |}. split; [exact Hrs|].
  rewrite (Hq' Hjl), app_nil_r in Hcat.
  split; [by rewrite fmap_app, concat_app, Hcat|].
  split; [done|]. by exists j.
Qed.

(** The case of C6 with no read before [Close]: nothing can keep the run
    from happening. *)
Corollary Pipe_writes_then_reads (writes bufs : list (list Item)) (fuel : nat) :
  1 <= fuel ->
  Forall (fun items => 1 <= length items) bufs ->
  length (concat writes) < length bufs ->
  exists rs p',
    Reads fuel (Close (fold_left Write writes NewPipe)) bufs = Some (rs, p')
    /\ concat (read_items <$> rs) = concat writes
    /\ exists j, j < length rs
         /\ Forall read_ok (take j rs) /\ Forall read_eof (drop j rs).
Proof.
  intros Hfuel Hb Hn. destruct fuel as [|fuel]; [lia|].
  rewrite Write_fold. unfold Close, NewPipe, NewQueueWithLocker. simpl.
  destruct (Reads_closed fuel bufs (concat writes) Hb)
    as (rs & q' & Hrs & Hlen & Hcat & j & Hj & Hok & Heof & Hq').
  assert (Hjl : j < length rs) by lia.
  exists rs, {| queue := q'; closed := true |}. split; [done|].
  rewrite (Hq' Hjl), app_nil_r in Hcat. split; [done|].
  by exists j.
Qed.

(** C7, as the code has it. [Write] cannot fail, it has no result; open or
    closed, the pipe gets the items at the tail of its queue, in order, and
    keeps its closed flag. *)
Theorem Pipe_Write_appends p (items : list Item) :
  Write p items = {| queue := queue p ++ items; closed := closed p |}.
Proof. unfold Write. by rewrite Queue_Add_fold. Qed.

End PipeFacts.

(** An instance of C6: a write of one item, a read, a write of two items,
    [Close], then reads with slices of lengths 1, 5 and 1. *)
Lemma Pipe_writes_close_reads_witness :
  (1 <= 1)%nat /\
  container.Calls 1 container.NewPipe
    [container.callWrite [1]; container.callRead [0; 0]; container.callWrite [2; 3]]%nat
    = Some ([(1, None, [1; 0])]%nat,
            {| container.queue := [2; 3]%nat; container.closed := false |}) /\
  Forall (fun items : list nat => (1 <= length items)%nat) [[0]; [0; 0; 0; 0; 0]; [0]]%nat /\
  (length (container.queue
             {| container.queue := [2; 3]%nat; container.closed := false |})
   < length [[0]; [0; 0; 0; 0; 0]; [0]]%nat)%nat /\
  exists rs2 p2,
    container.Reads 1
      (container.Close {| container.queue := [2; 3]%nat; container.closed := false |})
      [[0]; [0; 0; 0; 0; 0]; [0]]%nat = Some (rs2, p2)
    /\ concat (read_items <$> ([(1, None, [1; 0])]%nat ++ rs2))
       = container.written
           [container.callWrite [1]; container.callRead [0; 0];
            container.callWrite [2; 3]]%nat
    /\ Forall read_ok [(1, None, [1; 0])]%nat
    /\ exists j, (j < length rs2)%nat
         /\ Forall read_ok (take j rs2) /\ Forall read_eof (drop j rs2).
Proof.
  assert (H1 : (1 <= 1)%nat) by lia.
  assert (H2 : container.Calls 1 container.NewPipe
            [container.callWrite [1]; container.callRead [0; 0];
             container.callWrite [2; 3]]%nat
          = Some ([(1, None, [1; 0])]%nat,
                  {| container.queue := [2; 3]%nat; container.closed := false |}))
    by reflexivity.
  assert (H3 : Forall (fun items : list nat => (1 <= length items)%nat)
                 [[0]; [0; 0; 0; 0; 0]; [0]]%nat)
    by (repeat constructor; simpl; lia).
  assert (H4 : (length (container.queue
                          {| container.queue := [2; 3]%nat; container.closed := false |})
                < length [[0]; [0; 0; 0; 0; 0]; [0]]%nat)%nat)
    by (simpl; lia).
  split; [exact H1|]. split; [exact H2|]. split; [exact H3|]. split; [exact H4|].
  exact (Pipe_writes_close_reads _ _ 1%nat _ _ H1 H2 H3 H4).
Defined.

(** C7 as stated fails: a write on a closed pipe puts the item in the queue,
    and the next read hands it out. *)
Lemma Pipe_Write_closed_counterexample :
  container.closed (container.Close (@container.NewPipe nat)) = true /\
  container.queue (container.Write (container.Close container.NewPipe) [7%nat]) = [7%nat] /\
  container.Read 1 (container.Write (container.Close container.NewPipe) [7%nat]) [0%nat]
    = Some (Returned (1%nat, None), [7%nat],
            {| container.queue := []; container.closed := true |}).
Proof. repeat split. Qed.

(** ** The close paths of a streamIO *)

Section ClosePaths.

Local Open Scope nat_scope.

(** A goroutine left alone runs a call as the method is written. *)
Lemma goroutine_alone (op : closeOp) (s : streamIO) :
  fst (run_schedule (replicate 6 0) (s, [go [op]])) = call op s.
Proof.
  destruct op; unfold call, closeRecv, closeSend, close, cancel, runCloseCallback.
  all: repeat
         (cbn -[act_eof_test act_callback_test act_pipe_Close act_pipe_Cancel
                act_stream_close act_callback_call];
          match goal with
          | |- context [act_eof_test ?x] => destruct (act_eof_test x) as [? []]
          | |- context [act_callback_test ?x] => destruct (act_callback_test x) as [? []]
          end).
  all: reflexivity.
Qed.

Lemma pending_calls_insert gs : forall i g g',
  gs !! i = Some g ->
  pending_calls (<[i:=g']> gs) + at_call g = pending_calls gs + at_call g'.
Proof.
  induction gs as [|h gs IH]; intros [|i] g g' Hi; simpl in *; try done.
  - inversion Hi; subst. lia.
  - specialize (IH i g g' Hi). lia.
Qed.

Lemma pending_calls_go (progs : list (list closeOp)) : pending_calls (go <$> progs) = 0.
Proof. induction progs; simpl; auto. Qed.

(** No atomic action makes the budget grow: the compare-and-swap turns the
    win that was possible into a pending call, the call turns a pending call
    into a call made, nothing else touches any of the three. *)
Lemma pc_step_budget c s s' c' :
  pc_step c s = (s', c') ->
  callbackRuns s' + (match c' with pcCallbackCall => 1 | _ => 0 end) + may_win s'
  <= callbackRuns s + (match c with pcCallbackCall => 1 | _ => 0 end) + may_win s.
Proof.
  unfold may_win.
  destruct c; simpl; intros H.
  - inversion H; subst; simpl; lia.
  - unfold act_eof_test in H. destruct (closeCallback s); simpl in H.
    + inversion H; subst; simpl. case_bool_decide; simpl; lia.
    + inversion H; subst; simpl. lia.
  - inversion H; subst; simpl; lia.
  - inversion H; subst; simpl; lia.
  - inversion H; subst; simpl; lia.
  - unfold act_callback_test, atomic_CompareAndSwapInt32 in H.
    destruct (closeCallback s); simpl in H.
    + destruct (bool_decide (callbackFlag s = 0%Z)) eqn:E;
        inversion H; subst; simpl; rewrite ?E; simpl; lia.
    + inversion H; subst; simpl. lia.
  - inversion H; subst; simpl; lia.
  - inversion H; subst; simpl; lia.
Qed.

Lemma goroutine_step_budget g s s' g' :
  goroutine_step g s = Some (s', g') ->
  callbackRuns s' + at_call g' + may_win s' <= callbackRuns s + at_call g + may_win s.
Proof.
  unfold goroutine_step, at_call. intros H.
  destruct (g_pc g) eqn:Epc;
    try (destruct (pc_step _ s) as [s1 c1] eqn:Es in H; inversion H; subst; simpl;
         apply pc_step_budget in Es; exact Es).
  destruct (g_todo g) as [|op rest]; [done|]. inversion H; subst; simpl.
  destruct op; simpl; lia.
Qed.

Lemma sched_step_budget i m : budget (sched_step i m) <= budget m.
Proof.
  unfold sched_step, budget. destruct m as [s gs]; simpl.
  destruct (gs !! i) as [g|] eqn:Hi; [|done].
  destruct (goroutine_step g s) as [[s' g']|] eqn:Hg; [|done]. simpl.
  pose proof (goroutine_step_budget _ _ _ _ Hg).
  pose proof (pending_calls_insert gs i g g' Hi). lia.
Qed.

Lemma run_schedule_budget sched : forall m, budget (run_schedule sched m) <= budget m.
Proof.
  unfold run_schedule.
  induction sched as [|i sched IH]; intros m; simpl; [done|].
  etrans; [apply IH|apply sched_step_budget].
Qed.

(** C8. Take any streamIO, any number of goroutines, each making any
    sequence of calls of closeSend, closeRecv, close, cancel and
    runCloseCallback, and any schedule interleaving their atomic steps: at
    every point of the run the installed close callback has been invoked at
    most once more than before the run. *)
Theorem closeCallback_at_most_once (s : streamIO) (progs : list (list closeOp))
    (sched : list nat) :
  callbackRuns (fst (run_schedule sched (s, go <$> progs))) <= callbackRuns s + 1.
Proof.
  pose proof (run_schedule_budget sched (s, go <$> progs)) as H.
  unfold budget in H. simpl in H. rewrite pending_calls_go in H.
  unfold may_win in H at 2. case_bool_decide; lia.
Qed.

(** The callback does run: both half-closes by two goroutines, or [close]
    racing with [cancel], invoke it exactly once; one half-close alone does
    not invoke it. *)
Example closeCallback_after_both_halves :
  callbackRuns (fst (run_schedule [0; 1; 1; 0; 1; 0; 1; 0; 1; 0]
                       (example_streamIO, go <$> [[callCloseSend]; [callCloseRecv]]))) = 1.
Proof. reflexivity. Qed.

Example closeCallback_close_and_cancel :
  callbackRuns (fst (run_schedule [0; 1; 0; 1; 0; 1; 0; 1; 0; 1; 0; 1]
                       (example_streamIO, go <$> [[callClose]; [callCancel; callCloseSend]]))) = 1.
Proof. reflexivity. Qed.

Example closeCallback_one_half_only :
  callbackRuns (closeSend example_streamIO) = 0 /\
  callbackRuns (closeRecv (closeSend example_streamIO)) = 1 /\
  callbackRuns (cancel (closeRecv (closeSend example_streamIO))) = 1.
Proof. repeat split. Qed.

End ClosePaths.

(** ** The transport *)

Section TransportFacts.
Context {Data : Type}.
Variable EncodePayload : Data -> list byte + error.
Variable DecodePayload : list byte -> Data -> Data * option error.

Lemma int32_wrap_id (z : Z) : MinInt32 <= z <= MaxInt32 -> int32_wrap z = z.
Proof.
  unfold int32_wrap, MinInt32, MaxInt32. intros H.
  rewrite Z.mod_small by lia. lia.
Qed.

Lemma chan_send_open (fr : Frame) (t : transport) :
  ch_closed (wchannel t) = false ->
  (length (ch_buf (wchannel t)) < frameChanSize)%nat ->
  chan_send fr t =
    (Returned tt, set_wchannel {| ch_buf := ch_buf (wchannel t) ++ [fr]; ch_closed := false |} t).
Proof.
  intros Hc Hlen. unfold chan_send. rewrite Hc.
  apply Nat.ltb_lt in Hlen. by rewrite Hlen.
Qed.


(** Whatever error [streamRecv] returns is end of file for an unregistered
    sid or the error of [streamIO.output]; the decoder's answer is never
    looked at. *)
Lemma streamRecv_error_origin (sid : Z) (data : Data) (t : transport) :
  match streamRecv DecodePayload sid data t with
  | (Returned (_, Some e), _) =>
      match loadStreamIO sid t with
      | None => e = io_EOF
      | Some sio => exists f sio', output context_Background sio = (Returned (f, Some e), sio')
      end
  | _ => True
  end.
Proof.
  unfold streamRecv. destruct (loadStreamIO sid t) as [sio|]; [|done].
  destruct (output context_Background sio) as [[[f [e|]]|m|] sio'] eqn:E; try done.
  - by exists f, sio'.
  - by destruct (DecodePayload (msg_payload f) data).
Qed.

(** [streamRecv] touches the streamIO of its sid and nothing else of the
    transport, whatever the decoder answers. *)
Lemma streamRecv_keeps_transport (sid : Z) (data : Data) (t : transport) :
  let t' := snd (streamRecv DecodePayload sid data t) in
  conn t' = conn t /\ wchannel t' = wchannel t /\ spipe t' = spipe t /\
  scache t' = scache t /\ releases t' = releases t /\
  forall sid', sid' <> sid -> streams t' !! sid' = streams t !! sid'.
Proof.
  unfold streamRecv. destruct (loadStreamIO sid t) as [sio|]; [|done].
  destruct (output context_Background sio) as [[[f [e|]]|m|] sio'];
    try destruct (DecodePayload (msg_payload f) data);
    cbn; repeat split; intros; by rewrite ?lookup_insert_ne.
Qed.

(** C3, as the code has it. After the write channel has been closed,
    [writeFrame] returns no Closed error: either the payload encoder fails
    and its error is returned, or the send on the closed channel panics; the
    transport is left as it was. *)
Theorem writeFrame_closed_channel (meta : streamFrame) (ftype : Z) (data : option Data)
    (t : transport) :
  ch_closed (wchannel t) = true ->
  writeFrame EncodePayload meta ftype data t =
    match data with
    | Some d =>
        match EncodePayload d with
        | inr err => (Returned (Some err), t)
        | inl _ => (Panicked "send on closed channel", t)
        end
    | None => (Panicked "send on closed channel", t)
    end.
Proof.
  intros Hc. unfold writeFrame, bind, chan_send, ret.
  destruct data as [d|]; [destruct (EncodePayload d)|]; by rewrite ?Hc.
Qed.

(** On an open channel with room, [writeFrame] puts the frame at the tail
    and returns nil. *)
Lemma writeFrame_open (meta : streamFrame) (ftype : Z) (t : transport) :
  ch_closed (wchannel t) = false ->
  (length (ch_buf (wchannel t)) < frameChanSize)%nat ->
  writeFrame EncodePayload meta ftype None t =
    (Returned None,
     set_wchannel {| ch_buf := ch_buf (wchannel t) ++ [newFrame meta ftype []];
                     ch_closed := false |} t).
Proof.
  intros Hc Hlen. unfold writeFrame, bind, ret. by rewrite chan_send_open.
Qed.

(** C4, as the code has it. On a transport whose write channel is open,
    [Close] closes the accept pipe, then the write channel, then the
    connection, and returns what the connection's Close answered. It is not
    idempotent: a second [Close] panics on the closed write channel. Closing
    the accept pipe twice is the same as closing it once. *)
Theorem Close_then_Close (t : transport) :
  ch_closed (wchannel t) = false ->
  Close t = (Returned (conn_close_result (conn t)), after_Close t) /\
  fst (Close (after_Close t)) = Panicked "close of closed channel" /\
  container.Close (container.Close (spipe t)) = container.Close (spipe t).
Proof.
  intros Hc. unfold Close, bind, spipe_Close, chan_close, conn_Close, modify, ret.
  cbn. rewrite Hc. cbn. split; [|done].
  unfold after_Close, set_conn, add_release, set_wchannel, set_spipe. cbn.
  by rewrite <- !app_assoc.
Qed.

(** C5, as the code has it. On a client transport whose directory has the
    method and whose write channel is open with room, [newStream] adds one
    to the package counter with int32 wrap-around, stores the sum back and
    returns a stream with that sid and a nil error, having registered the
    streamIO and queued the Header frame. Below the maximum the sum is the
    counter plus one; at the maximum it is the minimum int32: there is no
    exhaustion error. *)
Theorem newStream_sid_wraps (ctx : Context) (method : string) (header : Header) (c : Z)
    (t : transport) (mi : MethodInfo) :
  kind t = clientTransport ->
  ServiceInfo_MethodInfo (sinfo t) method = Some mi ->
  ch_closed (wchannel t) = false ->
  (length (ch_buf (wchannel t)) < frameChanSize)%nat ->
  let sid := atomic_AddInt32 c 1 in
  let smeta := streamFrame_lit sid method header ∅ in
  let s := stream_new (StreamingMode_of mi) smeta in
  transport_newStream EncodePayload ctx method header (c, t) =
    (Returned (Some s, None),
     (sid,
      set_wchannel {| ch_buf := ch_buf (wchannel t) ++ [newFrame smeta headerFrameType []];
                      ch_closed := false |}
        (set_streams (<[sid := newStreamIO ctx s]> (streams t)) t)))
  /\ (MinInt32 <= c < MaxInt32 -> sid = c + 1)
  /\ (c = MaxInt32 -> sid = MinInt32).
Proof.
  intros Hk Hm Hc Hlen. cbv zeta. split; [|split].
  - unfold transport_newStream. rewrite Hk, Hm.
    change (negb (bool_decide (clientTransport = clientTransport))) with false.
    cbn iota. unfold bind, newStream, storeStreamIO, modify, writeFrame, bind, ret.
    rewrite chan_send_open by assumption. done.
  - intros H. unfold atomic_AddInt32. apply int32_wrap_id. unfold MinInt32, MaxInt32 in *. lia.
  - intros ->. reflexivity.
Qed.

End TransportFacts.

(** C9. [Available] answers true exactly when no activity has been recorded
    yet or the time since the recorded [lastActive] is strictly below ten
    minutes (600000000000 ns). *)
Theorem Available_iff (now : Z) (t : transport) :
  Available now t = true <->
  match lastActive t with
  | None => True
  | Some la => now - la < 600000000000
  end.
Proof.
  unfold Available, time_Sub, time_Minute, minDuration, maxDuration.
  destruct (lastActive t) as [la|]; [|done].
  rewrite Z.ltb_lt.
  destruct (Z.ltb_spec (now - la) (-9223372036854775808));
    [|destruct (Z.ltb_spec 9223372036854775807 (now - la))]; lia.
Qed.

(** ** The accept path *)

Section AcceptFacts.

Local Open Scope nat_scope.

(** With [j] streams in the cache, [j] calls of [readStream] hand them out
    from index [j-1] down to index 0. *)
Lemma readStreams_cached (fuel : nat) (ss : list stream) (tail : list (option stream)) :
  forall (j : nat) (t : transport),
    kind t = serverTransport ->
    sl_array (scache t) = (Some <$> ss) ++ tail ->
    sl_len (scache t) = j ->
    j <= length ss ->
    readStreams (S fuel) j t =
      Some (accepted <$> reverse (take j ss),
            set_scache {| sl_array := sl_array (scache t); sl_len := 0 |} t).
Proof.
  induction j as [|j IH]; intros t Hk Harr Hlen Hj.
  - simpl. f_equal. f_equal. destruct t as [? ? ? ? [arr n] ? ? ? ?].
    simpl in *. by subst.
  - destruct (lookup_lt_is_Some_2 ss j) as [x Hx]; [lia|].
    cbn [readStreams]. unfold readStream. rewrite Hk.
    change (negb (bool_decide (serverTransport = serverTransport))) with false.
    cbn iota. cbn [readStream_READ]. rewrite Hlen. cbn [Nat.ltb Nat.leb].
    replace (S j - 1) with j by lia.
    rewrite Harr, lookup_app_l by (rewrite length_fmap; lia).
    rewrite list_lookup_fmap, Hx. cbn [fmap option_fmap option_map].
    rewrite IH; [|done|by rewrite <- Harr|done|lia].
    cbn [scache set_scache sl_array]. rewrite <- Harr.
    f_equal. f_equal.
    rewrite (take_S_r ss j x Hx), reverse_snoc. done.
Qed.

Lemma readStream_READ_cached (fuel : nat) (t : transport) (s : option stream) :
  0 < sl_len (scache t) ->
  sl_array (scache t) !! (sl_len (scache t) - 1) = Some s ->
  readStream_READ (S fuel) t =
    Some (Returned (s, None),
          set_scache {| sl_array := sl_array (scache t); sl_len := sl_len (scache t) - 1 |} t).
Proof.
  intros Hpos Hs. cbn [readStream_READ]. apply Nat.ltb_lt in Hpos.
  cbv zeta. by rewrite Hpos, Hs.
Qed.

Lemma readStream_READ_refill (fuel : nat) (t : transport) :
  sl_len (scache t) = 0 ->
  streamCacheSize <= length (sl_array (scache t)) ->
  readStream_READ (S fuel) t =
    match container.Read fuel (spipe t) (take streamCacheSize (sl_array (scache t))) with
    | None => None
    | Some (res, items', p') =>
        let arr' := items' ++ drop streamCacheSize (sl_array (scache t)) in
        let t' := set_scache {| sl_array := arr'; sl_len := 0 |} (set_spipe p' t) in
        match res with
        | Returned (n, Some err) =>
            if errors_Is err ErrPipeEOF
            then Some (Returned (None, Some io_EOF), t')
            else Some (Returned (None, Some err), t')
        | Returned (n, None) =>
            if n =? 0 then Some (Panicked "Assert: N == 0 !", t')
            else readStream_READ fuel (set_scache {| sl_array := arr'; sl_len := n |} t')
        | Panicked m => Some (Panicked m, t')
        | Blocked => Some (Blocked, t')
        end
    end.
Proof.
  intros Hlen Hcap. cbn [readStream_READ]. cbv zeta. rewrite Hlen.
  change (0 <? 0) with false. cbn iota.
  apply Nat.ltb_ge in Hcap. by rewrite Hcap.
Qed.

(** C10, as the code has it: the cache has to be empty. A server transport
    with an empty cache of capacity 32 and [k] streams waiting in the accept
    pipe, 2 <= k <= 32: the first [readStream] takes all of them out of the
    pipe at once, keeps [k-1] in the cache and returns the one that arrived
    last; [k] calls in a row return the streams in the reverse of their order
    of arrival, leaving pipe and cache empty. For distinct streams this is
    not the order of arrival. *)
Theorem readStream_reverse_batch (fuel : nat) (ss : list stream) (t : transport) :
  2 <= fuel ->
  kind t = serverTransport ->
  sl_len (scache t) = 0 ->
  length (sl_array (scache t)) = streamCacheSize ->
  container.queue (spipe t) = Some <$> ss ->
  2 <= length ss <= streamCacheSize ->
  (exists r t1,
     readStream fuel t = Some (Returned r, t1) /\
     Some r = head (accepted <$> reverse ss) /\
     container.queue (spipe t1) = [] /\
     sl_len (scache t1) = length ss - 1) /\
  (exists tk,
     readStreams fuel (length ss) t = Some (accepted <$> reverse ss, tk) /\
     container.queue (spipe tk) = [] /\
     sl_len (scache tk) = 0) /\
  (NoDup ss -> accepted <$> reverse ss <> accepted <$> ss).
Proof.
  intros Hfuel Hk Hlen Hcap Hq Hss.
  destruct fuel as [|[|fuel]]; [lia|lia|].
  destruct (lookup_lt_is_Some_2 ss (length ss - 1)) as [x Hx]; [lia|].
  set (arr := (Some <$> ss) ++ drop (length ss) (sl_array (scache t))).
  set (p1 := {| container.queue := []; container.closed := container.closed (spipe t) |}
             : container.Pipe (option stream)).
  set (t1 := set_scache {| sl_array := arr; sl_len := length ss - 1 |} (set_spipe p1 t)).
  assert (Hfirst : readStream (S (S fuel)) t = Some (Returned (accepted x), t1)).
  { unfold readStream. rewrite Hk.
    change (negb (bool_decide (serverTransport = serverTransport))) with false.
    cbn iota. rewrite readStream_READ_refill by (done || lia).
    rewrite (take_ge (sl_array (scache t))), (drop_ge (sl_array (scache t))) by lia.
    rewrite Read_nonempty; [|lia|rewrite Hq; destruct ss; [simpl in Hss; lia|done]].
    rewrite Hq, Hcap.
    rewrite take_ge by (rewrite length_fmap; lia).
    rewrite (drop_ge (Some <$> ss)) by (rewrite length_fmap; lia).
    rewrite length_fmap, app_nil_r.
    replace (length ss =? 0) with false by (symmetry; apply Nat.eqb_neq; lia).
    fold arr. fold p1.
    rewrite (readStream_READ_cached fuel _ (Some x)).
    - unfold accepted, t1. done.
    - cbn. lia.
    - cbn [scache set_scache sl_len sl_array]. unfold arr.
      rewrite lookup_app_l by (rewrite length_fmap; lia).
      by rewrite list_lookup_fmap, Hx. }
  assert (Hrev : reverse ss = x :: reverse (take (length ss - 1) ss)).
  { rewrite <- (take_drop (length ss - 1) ss) at 1.
    rewrite (drop_S ss x (length ss - 1) Hx).
    replace (S (length ss - 1)) with (length ss) by lia.
    rewrite drop_all, reverse_app. done. }
  split; [|split].
  - exists (accepted x), t1. split; [done|]. rewrite Hrev. done.
  - exists (set_scache {| sl_array := arr; sl_len := 0 |} t1).
    split; [|done].
    replace (length ss) with (S (length ss - 1)) at 1 by lia.
    cbn [readStreams]. rewrite Hfirst.
    rewrite (readStreams_cached (S fuel) ss (drop (length ss) (sl_array (scache t)))
               (length ss - 1) t1); [|done|done|done|lia].
    rewrite Hrev. done.
  - intros Hnd Heq.
    apply (f_equal (fmap (M:=list) fst)) in Heq.
    rewrite <- !list_fmap_compose in Heq.
    apply (f_equal head) in Heq. rewrite Hrev in Heq.
    destruct ss as [|y ss']; [simpl in Hss; lia|]. cbn in Heq.
    inversion Heq; subst y.
    apply NoDup_cons in Hnd as [Hnin _]. apply Hnin.
    destruct ss' as [|z ss'']; [simpl in Hss; lia|].
    apply list_elem_of_lookup. exists (length (z :: ss'') - 1).
    replace (length (x :: z :: ss'') - 1) with (S (length (z :: ss'') - 1)) in Hx
      by (simpl; lia).
    exact Hx.
Qed.

End AcceptFacts.

(** ** The statements at concrete inputs *)



(** C2 at a concrete input. Stream 1 is registered and its pipe holds the
    payload [01 02]; the codec fails to decode it. [streamRecv] returns a nil
    error all the same; the connection, the write channel and the accept
    pipe are untouched. *)
Theorem streamRecv_decode_failure_returns_nil :
  (exists sio sio' f,
     loadStreamIO 1 example_receiving = Some sio /\
     output context_Background sio = (Returned (f, None), sio') /\
     msg_payload f = [x01; x02] /\
     failing_decode (msg_payload f) tt = (tt, Some (ErrExternal "decode"))) /\
  fst (streamRecv failing_decode 1 tt example_receiving) = Returned (tt, None) /\
  conn (snd (streamRecv failing_decode 1 tt example_receiving)) = conn example_receiving /\
  wchannel (snd (streamRecv failing_decode 1 tt example_receiving))
    = wchannel example_receiving /\
  spipe (snd (streamRecv failing_decode 1 tt example_receiving)) = spipe example_receiving.
Proof.
  split.
  - eexists _, _, _. split; [vm_compute; reflexivity|].
    split; [vm_compute; reflexivity|]. split; reflexivity.
  - vm_compute. done.
Qed.

(** An instance of C3 as the code has it: a Data frame on a client transport
    that has been closed. *)
Lemma writeFrame_closed_channel_witness :
  ch_closed (wchannel (after_Close example_client)) = true /\
  writeFrame unit_encode (streamFrame_lit 1 "echo" ∅ ∅) dataFrameType (Some tt)
      (after_Close example_client) =
    match Some tt with
    | Some d =>
        match unit_encode d with
        | inr err => (Returned (Some err), after_Close example_client)
        | inl _ => (Panicked "send on closed channel", after_Close example_client)
        end
    | None => (Panicked "send on closed channel", after_Close example_client)
    end.
Proof.
  split; [reflexivity|].
  exact (writeFrame_closed_channel unit_encode (streamFrame_lit 1 "echo" ∅ ∅) dataFrameType
           (Some tt) (after_Close example_client) eq_refl).
Defined.

(** C3 as stated fails: after [Close], [writeFrame] does not return an
    error, it panics. *)
Lemma writeFrame_after_Close_counterexample :
  ch_closed (wchannel (snd (Close example_client))) = true /\
  fst (writeFrame unit_encode (streamFrame_lit 1 "echo" ∅ ∅) dataFrameType (Some tt)
         (snd (Close example_client)))
    = Panicked "send on closed channel".
Proof. vm_compute. done. Qed.

(** An instance of C4 as the code has it: a new server transport. *)
Lemma Close_then_Close_witness :
  ch_closed (wchannel example_server) = false /\
  Close example_server
    = (Returned (conn_close_result (conn example_server)), after_Close example_server) /\
  fst (Close (after_Close example_server)) = Panicked "close of closed channel" /\
  container.Close (container.Close (spipe example_server))
    = container.Close (spipe example_server).
Proof.
  split; [reflexivity|].
  exact (Close_then_Close example_server eq_refl).
Defined.

(** C4 as stated fails: the second [Close] on the same transport panics. *)
Lemma Close_twice_counterexample :
  fst (Close example_server) = Returned None /\
  fst (Close (snd (Close example_server))) = Panicked "close of closed channel".
Proof. vm_compute. done. Qed.

(** An instance of C5 as the code has it: the counter at 41. *)
Lemma newStream_sid_wraps_witness :
  kind example_client = clientTransport /\
  ServiceInfo_MethodInfo (sinfo example_client) "echo"
    = Some {| StreamingMode_of := StreamingBidirectional; OneWay := false |} /\
  ch_closed (wchannel example_client) = false /\
  (length (ch_buf (wchannel example_client)) < frameChanSize)%nat /\
  (let sid := atomic_AddInt32 41 1 in
   let smeta := streamFrame_lit sid "echo" ∅ ∅ in
   let s := stream_new StreamingBidirectional smeta in
   transport_newStream unit_encode context_Background "echo" ∅ (41, example_client) =
     (Returned (Some s, None),
      (sid,
       set_wchannel
         {| ch_buf := ch_buf (wchannel example_client) ++ [newFrame smeta headerFrameType []];
            ch_closed := false |}
         (set_streams (<[sid := newStreamIO context_Background s]> (streams example_client))
            example_client)))
   /\ (MinInt32 <= 41 < MaxInt32 -> sid = 41 + 1)
   /\ (41 = MaxInt32 -> sid = MinInt32)).
Proof.
  assert (Hlen : (length (ch_buf (wchannel example_client)) < frameChanSize)%nat)
    by (vm_compute; lia).
  split; [reflexivity|]. split; [reflexivity|]. split; [reflexivity|]. split; [exact Hlen|].
  exact (newStream_sid_wraps unit_encode context_Background "echo" ∅ 41 example_client
           {| StreamingMode_of := StreamingBidirectional; OneWay := false |}
           eq_refl eq_refl eq_refl Hlen).
Defined.

(** C5 as stated fails: with the counter at the largest int32, [newStream]
    returns a stream whose sid is the smallest int32, and a nil error. *)
Lemma newStream_overflow_counterexample :
  fst (transport_newStream unit_encode context_Background "echo" ∅
         (MaxInt32, example_client))
  = Returned (Some (example_stream (-2147483648)), None).
Proof. vm_compute. done. Qed.

(** An instance of C10 as the code has it: the server transport after the
    reader loop took in Header frames for the streams 1, 3 and 5. *)
Lemma readStream_reverse_batch_witness :
  (2 <= 2)%nat /\
  kind example_accepting = serverTransport /\
  sl_len (scache example_accepting) = 0%nat /\
  length (sl_array (scache example_accepting)) = streamCacheSize /\
  container.queue (spipe example_accepting)
    = Some <$> [example_stream 1; example_stream 3; example_stream 5] /\
  (2 <= length [example_stream 1; example_stream 3; example_stream 5] <= streamCacheSize)%nat /\
  ((exists r t1,
      readStream 2 example_accepting = Some (Returned r, t1) /\
      Some r = head (accepted <$> reverse [example_stream 1; example_stream 3; example_stream 5]) /\
      container.queue (spipe t1) = [] /\
      sl_len (scache t1)
        = (length [example_stream 1; example_stream 3; example_stream 5] - 1)%nat) /\
   (exists tk,
      readStreams 2 (length [example_stream 1; example_stream 3; example_stream 5])
        example_accepting
        = Some (accepted <$> reverse [example_stream 1; example_stream 3; example_stream 5], tk) /\
      container.queue (spipe tk) = [] /\
      sl_len (scache tk) = 0%nat) /\
   (NoDup [example_stream 1; example_stream 3; example_stream 5] ->
    accepted <$> reverse [example_stream 1; example_stream 3; example_stream 5]
    <> accepted <$> [example_stream 1; example_stream 3; example_stream 5])).
Proof.
  assert (H1 : (2 <= 2)%nat) by lia.
  assert (H2 : (2 <= length [example_stream 1; example_stream 3; example_stream 5]
                <= streamCacheSize)%nat) by (vm_compute; lia).
  assert (Hq : container.queue (spipe example_accepting)
               = Some <$> [example_stream 1; example_stream 3; example_stream 5])
    by (vm_compute; reflexivity).
  split; [exact H1|]. split; [reflexivity|]. split; [reflexivity|]. split; [reflexivity|].
  split; [exact Hq|]. split; [exact H2|].
  exact (readStream_reverse_batch 2 [example_stream 1; example_stream 3; example_stream 5]
           example_accepting H1 eq_refl eq_refl eq_refl Hq H2).
Defined.

(** C10 as stated fails when the cache still holds streams of an earlier
    batch: on [example_cached] the streams 7 and 9 are waiting in the accept
    pipe before [readStream] is called, yet the call returns the cached
    stream 3 and takes nothing out of the pipe; four calls in a row return
    3, 1, 9, 7. *)
Lemma readStream_cached_first_counterexample :
  kind example_cached = serverTransport /\
  sl_len (scache example_cached) = 2%nat /\
  container.queue (spipe example_cached) = Some <$> [example_stream 7; example_stream 9] /\
  (exists t1,
     readStream 2 example_cached = Some (Returned (accepted (example_stream 3)), t1) /\
     container.queue (spipe t1) = Some <$> [example_stream 7; example_stream 9] /\
     sl_len (scache t1) = 1%nat) /\
  (exists tk,
     readStreams 2 4 example_cached
     = Some (accepted <$> [example_stream 3; example_stream 1;
                           example_stream 9; example_stream 7], tk)) /\
  accepted (example_stream 3)
  <> accepted (example_stream 9).
Proof.
  split; [reflexivity|]. split; [vm_compute; reflexivity|].
  split; [vm_compute; reflexivity|].
  split; [|split].
  - eexists. split; [vm_compute; reflexivity|]. split; vm_compute; reflexivity.
  - eexists. vm_compute. reflexivity.
  - vm_compute. intros [=].
Qed.
(** ** Further properties of the code *)

Section PipeMore.
Import container.
Context {Item : Type}.
Implicit Types (q items : list Item) (p : Pipe Item).
Local Open Scope nat_scope.

(** X1. [Read] with at least one pass of fuel and a slice of length at least
    one, on its own: with an empty queue it answers end of file on a closed
    pipe and waits on an open one, leaving slice and pipe alone; with items
    queued it returns at once, whether the pipe is closed or not, with the
    smaller of the slice length and the queue length as count, a nil error,
    these items at the front of the slice in queue order, and the rest of
    the queue left in the pipe. It never returns count zero with a nil
    error. *)
Theorem Pipe_Read_cases fuel p items :
  1 <= fuel -> 1 <= length items ->
  Read fuel p items =
    match queue p with
    | [] => Some (if closed p then Returned (0, Some PipeEOF) else Blocked, items, p)
    | _ :: _ =>
        let n := length items `min` length (queue p) in
        Some (Returned (n, None),
              take n (queue p) ++ drop n items,
              {| queue := drop n (queue p); closed := closed p |})
    end.
Proof.
  intros Hf Hk. destruct fuel as [|fuel]; [lia|].
  destruct (queue p) as [|v q] eqn:Hq.
  - by apply Read_drained.
  - rewrite Read_nonempty; [|done|by rewrite Hq]. rewrite Hq. cbv zeta.
    set (l := v :: q). rewrite length_take.
    destruct (Nat.min_spec (length items) (length l)) as [[Hlt ->]|[Hge ->]].
    + done.
    + by rewrite !(take_ge l), !(drop_ge l) by lia.
Qed.

(** X2. [Read] with a slice of length zero: when items are queued it never
    returns, whatever the fuel (it finds nothing to store, sees the queue
    non-empty and goes back to the READ label); with an empty queue it
    answers end of file on a closed pipe and waits on an open one. *)
Theorem Pipe_Read_empty_slice p (fuel : nat) :
  Read fuel p [] =
    match fuel, queue p with
    | 0, _ => None
    | S _, [] => Some (if closed p then Returned (0, Some PipeEOF) else Blocked, [], p)
    | S _, _ :: _ => None
    end.
Proof.
  destruct fuel as [|fuel]; [done|].
  destruct (queue p) as [|v q] eqn:Hq.
  - by apply Read_drained.
  - apply Read_spin; [done|by rewrite Hq].
Qed.

End PipeMore.

Section StreamIOMore.

(** X3. Once [output] has returned an error, the streamIO keeps it in
    [exception], and every later [output], with any context, returns the
    same error with the zero message and changes nothing. *)
Theorem output_error_latches (ctx ctx' : Context) (s s' : streamIO) (msg : streamIOMsg) (e : error) :
  output ctx s = (Returned (msg, Some e), s') ->
  exception s' = Some e /\
  output ctx' s' = (Returned (streamIOMsg_zero, Some e), s').
Proof.
  unfold output at 1. intros H.
  assert (exception s' = Some e) as He.
  { destruct (exception s) as [e0|] eqn:E0.
    - inversion H; subst. done.
    - destruct (container.CtxPipe_Read (ctx_err ctx) (pipe s) [cache s])
        as [[[[n [err|]]|m|] items'] p'].
      + inversion H; subst. done.
      + destruct (n =? 0)%nat.
        * inversion H; subst. done.
        * destruct (msg_exception _) eqn:Em; inversion H; subst; done.
      + done.
      + done. }
  split; [done|]. unfold output. by rewrite He.
Qed.

(** X4. With no exception latched and a pipe that has not been cancelled,
    [output] takes exactly the oldest message out of the pipe and returns it
    together with the message's own exception (nil for a plain payload); a
    message's exception is latched. *)
Theorem output_head (ctx : Context) (s : streamIO) (m : streamIOMsg) (q : list streamIOMsg) :
  exception s = None ->
  container.cqueue (pipe s) = m :: q ->
  container.cstate (pipe s) <> container.pipeStateCanceled ->
  output ctx s =
    (Returned (m, msg_exception m),
     set_exception (msg_exception m)
       (set_cache m
          (set_pipe (fun _ => {| container.cqueue := q;
                                 container.cstate := container.cstate (pipe s) |}) s))).
Proof.
  intros He Hq Hst. unfold output. rewrite He.
  unfold container.CtxPipe_Read. rewrite Hq.
  destruct (container.cstate (pipe s)) eqn:Es; [| |done].
  all: cbn; destruct (msg_exception m) eqn:Em; cbn; rewrite ?Em; try done.
  all: unfold set_exception, set_cache, set_pipe; cbn; by rewrite He.
Qed.

(** X5. With no exception latched, [output] on a cancelled pipe, or on a
    closed pipe with nothing queued, returns [io.EOF] (the pipe's own
    end-of-file error is translated) with the zero message, and latches
    it. *)
Theorem output_end_of_stream (ctx : Context) (s : streamIO) :
  exception s = None ->
  container.cstate (pipe s) = container.pipeStateCanceled \/
    (container.cstate (pipe s) = container.pipeStateClosed /\ container.cqueue (pipe s) = []) ->
  output ctx s =
    (Returned (streamIOMsg_zero, Some io_EOF), set_exception (Some io_EOF) s).
Proof.
  intros He Hq. unfold output. rewrite He. unfold container.CtxPipe_Read.
  destruct s as [c st p ca ex ef cf cb cr]. simpl in *. subst ex.
  destruct p as [qq cs]. simpl in *.
  destruct Hq as [->|[-> ->]]; [by destruct qq|done].
Qed.

End StreamIOMore.

Section CloseMore.
Local Open Scope nat_scope.

(** X6. With a callback installed and both counters at zero, run by one
    goroutine: the first half-close ([closeSend] or [closeRecv]) does not
    invoke the callback, the second one does, exactly once, whichever two
    calls they are, also twice the same one. *)
Theorem half_closes_fire_on_second (a b : closeOp) (s : streamIO) :
  half_close a = true -> half_close b = true ->
  closeCallback s = Some tt -> eofFlag s = 0%Z -> callbackFlag s = 0%Z ->
  callbackRuns (call a s) = callbackRuns s /\
  callbackRuns (call b (call a s)) = S (callbackRuns s) /\
  callbackFlag (call b (call a s)) = 1%Z /\
  eofFlag (call b (call a s)) = 2%Z.
Proof.
  intros Ha Hb Hcb He Hc.
  destruct s as [c st p ca ex ef cf cb cr]. simpl in *. subst.
  destruct a; try done; destruct b; try done; cbn; done.
Qed.

Lemma runCloseCallback_spent (s : streamIO) :
  callbackFlag s <> 0%Z ->
  callbackRuns (runCloseCallback s) = callbackRuns s /\
  callbackFlag (runCloseCallback s) = callbackFlag s.
Proof.
  intros H. unfold runCloseCallback, act_callback_test, atomic_CompareAndSwapInt32.
  destruct (closeCallback s); [|done].
  by rewrite bool_decide_eq_false_2.
Qed.

Lemma act_eof_test_callback (s : streamIO) :
  callbackRuns (fst (act_eof_test s)) = callbackRuns s /\
  callbackFlag (fst (act_eof_test s)) = callbackFlag s.
Proof. unfold act_eof_test. by destruct (closeCallback s). Qed.

Lemma call_spent (op : closeOp) (s : streamIO) :
  callbackFlag s <> 0%Z ->
  callbackRuns (call op s) = callbackRuns s /\ callbackFlag (call op s) = callbackFlag s.
Proof.
  intros H. destruct op; unfold call, closeRecv, closeSend, close, cancel.
  - pose proof (act_eof_test_callback (act_pipe_Close s)) as [H1 H2].
    destruct (act_eof_test (act_pipe_Close s)) as [s1 []]; simpl in *.
    + destruct (runCloseCallback_spent s1) as [H3 H4]; [by rewrite H2|].
      by rewrite H3, H4, H1, H2.
    + done.
  - pose proof (act_eof_test_callback s) as [H1 H2].
    destruct (act_eof_test s) as [s1 []]; simpl in *.
    + destruct (runCloseCallback_spent s1) as [H3 H4]; [by rewrite H2|].
      by rewrite H3, H4, H1, H2.
    + done.
  - by apply (runCloseCallback_spent (act_stream_close (act_pipe_Close s))).
  - by apply (runCloseCallback_spent (act_stream_close (act_pipe_Cancel s))).
  - by apply runCloseCallback_spent.
Qed.

(** X7. With a callback installed and [callbackFlag] at zero, [close] and
    [cancel] invoke the callback at once, set [callbackFlag] to one, leave
    [eofFlag] alone and close the stream; whatever close calls the same
    goroutine makes afterwards, the callback is not invoked again. *)
Theorem close_cancel_fire_at_once (a : closeOp) (s : streamIO) :
  full_close a = true ->
  closeCallback s = Some tt -> callbackFlag s = 0%Z ->
  callbackRuns (call a s) = S (callbackRuns s) /\
  callbackFlag (call a s) = 1%Z /\
  eofFlag (call a s) = eofFlag s /\
  s_closed (sio_stream (call a s)) = true /\
  forall ops : list closeOp,
    callbackRuns (fold_left (fun s op => call op s) ops (call a s)) = S (callbackRuns s).
Proof.
  intros Ha Hcb Hc.
  assert (Hstay : forall ops s1, callbackFlag s1 <> 0%Z ->
            callbackRuns (fold_left (fun s op => call op s) ops s1) = callbackRuns s1).
  { induction ops as [|op ops IH]; intros s1 H1; [done|]. simpl.
    destruct (call_spent op s1 H1) as [Hr Hf].
    rewrite IH by (by rewrite Hf). done. }
  destruct s as [c st p ca ex ef cf cb cr]. simpl in *. subst.
  destruct a; try done; cbn.
  all: repeat split; try done.
  all: intros ops; rewrite Hstay; cbn; done.
Qed.

End CloseMore.

Section NoCallback.
Local Open Scope nat_scope.

Lemma pc_step_no_callback c s :
  closeCallback s = None -> c <> pcCallbackCall ->
  closeCallback (fst (pc_step c s)) = None /\
  snd (pc_step c s) <> pcCallbackCall /\
  eofFlag (fst (pc_step c s)) = eofFlag s /\
  callbackFlag (fst (pc_step c s)) = callbackFlag s /\
  callbackRuns (fst (pc_step c s)) = callbackRuns s.
Proof.
  intros Hcb Hc. destruct c; try done; simpl;
    unfold act_eof_test, act_callback_test; simpl; rewrite ?Hcb; done.
Qed.

Lemma sched_step_no_callback i m :
  closeCallback (fst m) = None -> Forall not_at_call (snd m) ->
  closeCallback (fst (sched_step i m)) = None /\
  Forall not_at_call (snd (sched_step i m)) /\
  eofFlag (fst (sched_step i m)) = eofFlag (fst m) /\
  callbackFlag (fst (sched_step i m)) = callbackFlag (fst m) /\
  callbackRuns (fst (sched_step i m)) = callbackRuns (fst m).
Proof.
  intros Hcb Hall. unfold sched_step. destruct m as [s gs]; simpl in *.
  destruct (gs !! i) as [g|] eqn:Hi; [|done].
  assert (Hg : not_at_call g) by (eapply Forall_lookup_1; eauto).
  unfold goroutine_step.
  destruct (g_pc g) eqn:Epc;
    try (pose proof (pc_step_no_callback (g_pc g) s Hcb Hg) as (H1 & H2 & H3 & H4 & H5);
         rewrite Epc in *;
         destruct (pc_step _ s) as [s' c'] eqn:Es; simpl in *;
         repeat split; try done;
         apply Forall_insert; done).
  destruct (g_todo g) as [|op rest]; [done|]. simpl.
  repeat split; try done. apply Forall_insert; [done|].
  unfold not_at_call. simpl. by destruct op.
Qed.

(** X8. Without a callback installed, no close path counts anything: under
    any schedule of any goroutines making any close calls, [eofFlag],
    [callbackFlag] and the number of invocations stay as they were. *)
Theorem no_callback_no_accounting (s : streamIO) (progs : list (list closeOp))
    (sched : list nat) :
  closeCallback s = None ->
  eofFlag (fst (run_schedule sched (s, go <$> progs))) = eofFlag s /\
  callbackFlag (fst (run_schedule sched (s, go <$> progs))) = callbackFlag s /\
  callbackRuns (fst (run_schedule sched (s, go <$> progs))) = callbackRuns s.
Proof.
  intros Hcb.
  assert (Hgen : forall sched m,
    closeCallback (fst m) = None -> Forall not_at_call (snd m) ->
    eofFlag (fst (run_schedule sched m)) = eofFlag (fst m) /\
    callbackFlag (fst (run_schedule sched m)) = callbackFlag (fst m) /\
    callbackRuns (fst (run_schedule sched m)) = callbackRuns (fst m)).
  { clear. unfold run_schedule.
    induction sched as [|i sched IH]; intros m Hcb Hall; [done|]. simpl.
    destruct (sched_step_no_callback i m Hcb Hall) as (H1 & H2 & H3 & H4 & H5).
    destruct (IH _ H1 H2) as (H6 & H7 & H8).
    by rewrite H6, H7, H8. }
  apply (Hgen sched (s, go <$> progs)); [done|]. simpl.
  apply Forall_fmap, Forall_forall. intros ops _. unfold not_at_call. done.
Qed.

End NoCallback.

Section ReaderMore.

(** X9. A Meta, Data or Trailer frame, or a Header frame on a client
    transport, whose sid is not in the registry is dropped: the iteration
    only stores [lastActive] and the loop goes on. *)
Theorem loopRead_drops_unknown_sid (now : Z) (fr : Frame) (t : transport) :
  loadStreamIO (sid (fr_streamFrame fr)) t = None ->
  typ fr = metaFrameType \/ typ fr = dataFrameType \/ typ fr = trailerFrameType \/
    (typ fr = headerFrameType /\ kind t = clientTransport) ->
  loopRead_iter now (Some (inl fr)) t = (Returned loopContinue, set_lastActive (Some now) t).
Proof.
  intros Hload Htyp. unfold loopRead_iter, bind, modify, get.
  change (loadStreamIO (sid (fr_streamFrame fr)) (set_lastActive (Some now) t))
    with (loadStreamIO (sid (fr_streamFrame fr)) t).
  change (kind (set_lastActive (Some now) t)) with (kind t).
  rewrite Hload.
  destruct Htyp as [->|[->|[->|[-> ->]]]]; done.
Qed.

(** X10. A frame whose type is none of the four, and a Header frame on a
    transport that is neither server nor client, fall through the switch:
    the iteration only stores [lastActive] and the loop goes on. *)
Theorem loopRead_ignores_other_frames (now : Z) (fr : Frame) (t : transport) :
  (typ fr <> metaFrameType /\ typ fr <> headerFrameType /\
   typ fr <> dataFrameType /\ typ fr <> trailerFrameType) \/
  (typ fr = headerFrameType /\ kind t <> serverTransport /\ kind t <> clientTransport) ->
  loopRead_iter now (Some (inl fr)) t = (Returned loopContinue, set_lastActive (Some now) t).
Proof.
  intros H. unfold loopRead_iter, bind, modify, get.
  change (kind (set_lastActive (Some now) t)) with (kind t).
  destruct H as [(H1 & H2 & H3 & H4)|(H1 & H2 & H3)].
  - by rewrite !bool_decide_eq_false_2.
  - rewrite H1.
    change (bool_decide (headerFrameType = metaFrameType)) with false.
    change (bool_decide (headerFrameType = headerFrameType)) with true.
    by rewrite !bool_decide_eq_false_2.
Qed.

Lemma on_streamIO_frame (sid : Z) (f : streamIO -> streamIO) (t : transport) :
  on_streamIO sid f t = (Returned tt, set_streams (alter f sid (streams t)) t).
Proof. done. Qed.

Lemma loopRead_iter_frame (now : Z) (dec : option (Frame + error)) (t : transport) :
  let t' := snd (loopRead_iter now dec t) in
  kind t' = kind t /\ sinfo t' = sinfo t /\ conn t' = conn t /\ scache t' = scache t /\
  wchannel t' = wchannel t /\ releases t' = releases t /\
  container.closed (spipe t') = container.closed (spipe t) /\
  lastActive t' = Some now.
Proof.
  unfold loopRead_iter, bind, modify, get. cbn [fst snd].
  destruct dec as [[fr|err]|]; [|done|done].
  change (kind (set_lastActive (Some now) t)) with (kind t).
  change (sinfo (set_lastActive (Some now) t)) with (sinfo t).
  change (loadStreamIO (sid (fr_streamFrame fr)) (set_lastActive (Some now) t))
    with (loadStreamIO (sid (fr_streamFrame fr)) t).
  repeat case_bool_decide; try done.
  all: repeat match goal with
       | |- context [match loadStreamIO ?a ?b with _ => _ end] =>
           destruct (loadStreamIO a b) as [sio|] eqn:?
       | |- context [match ServiceInfo_MethodInfo ?a ?b with _ => _ end] =>
           destruct (ServiceInfo_MethodInfo a b) as [mi|] eqn:?
       end; try done.
  unfold stream_readTrailer, streamCloseRecv, bind, get, on_streamIO, modify, ret. cbn [fst snd].
  match goal with
  | |- context [match loadStreamIO ?a ?b with _ => _ end] => destruct (loadStreamIO a b)
  end; done.
Qed.

(** X11. Whatever the connection delivers and however [loopRead] ends
    (waiting, or returning a decode or stream error), it never sends a
    frame and never closes anything: write channel, connection, cache, kind,
    directory and the record of releases are as before, and the accept pipe
    has the closed flag it had. *)
Theorem loopRead_leaves_transport_open (inputs : list (Z * (Frame + error))) (idle : Z)
    (t : transport) :
  let t' := snd (loopRead inputs idle t) in
  kind t' = kind t /\ sinfo t' = sinfo t /\ conn t' = conn t /\ scache t' = scache t /\
  wchannel t' = wchannel t /\ releases t' = releases t /\
  container.closed (spipe t') = container.closed (spipe t).
Proof.
  revert t. induction inputs as [|[now dec] inputs IH]; intros t; cbv zeta.
  - cbn [loopRead]. unfold bind.
    pose proof (loopRead_iter_frame idle None t) as H. cbv zeta in H.
    destruct (loopRead_iter idle None t) as [[c|m|] t1]; cbn [fst snd] in *; tauto.
  - cbn [loopRead]. unfold bind.
    pose proof (loopRead_iter_frame now (Some dec) t) as H. cbv zeta in H.
    destruct (loopRead_iter now (Some dec) t) as [[c|m|] t1]; cbn [fst snd] in *;
      [|tauto|tauto].
    destruct c as [|err].
    + specialize (IH t1). cbv zeta in IH.
      destruct IH as (? & ? & ? & ? & ? & ? & ?).
      destruct H as (? & ? & ? & ? & ? & ? & ? & _).
      repeat split; congruence.
    + cbn. tauto.
Qed.

(** X12. After an iteration of the reader loop at clock reading [now],
    whatever it decoded, [Available] at a later reading [now'] is true
    exactly when [now' - now] is below ten minutes. *)
Theorem loopRead_makes_available (now now' : Z) (dec : option (Frame + error)) (t : transport) :
  Available now' (snd (loopRead_iter now dec t)) = true <-> now' - now < 600000000000.
Proof.
  pose proof (loopRead_iter_frame now dec t) as H. cbv zeta in H.
  destruct H as (_ & _ & _ & _ & _ & _ & _ & Hla).
  unfold Available. rewrite Hla.
  unfold time_Sub, time_Minute, minDuration, maxDuration.
  rewrite Z.ltb_lt.
  destruct (Z.ltb_spec (now' - now) (-9223372036854775808));
    [|destruct (Z.ltb_spec 9223372036854775807 (now' - now))]; lia.
Qed.

End ReaderMore.

Section StreamsMore.
Context {Data : Type}.
Variable EncodePayload : Data -> list byte + error.
Variable DecodePayload : list byte -> Data -> Data * option error.

(** X13. A Data frame for a registered stream whose pipe is new and which
    has no exception latched: the reader loop goes on, and the next
    [streamRecv] on that sid hands the frame's payload to the decoder,
    returns the decoder's value with a nil error and leaves the pipe empty
    again. *)
Theorem loopRead_data_then_streamRecv (now : Z) (fr : Frame) (t : transport)
    (sio : streamIO) (data : Data) :
  typ fr = dataFrameType ->
  loadStreamIO (sid (fr_streamFrame fr)) t = Some sio ->
  exception sio = None ->
  pipe sio = container.NewCtxPipe ->
  let t1 := snd (loopRead_iter now (Some (inl fr)) t) in
  let msg := {| msg_payload := payload fr; msg_exception := None |} in
  fst (loopRead_iter now (Some (inl fr)) t) = Returned loopContinue /\
  streamRecv DecodePayload (sid (fr_streamFrame fr)) data t1 =
    (Returned (fst (DecodePayload (payload fr) data), None),
     set_streams (<[sid (fr_streamFrame fr) := set_cache msg sio]> (streams t))
       (set_lastActive (Some now) t)).
Proof.
  intros Htyp Hload Hex Hpipe. cbv zeta.
  unfold loopRead_iter, bind, modify, get. cbn [fst snd].
  change (loadStreamIO (sid (fr_streamFrame fr)) (set_lastActive (Some now) t))
    with (loadStreamIO (sid (fr_streamFrame fr)) t).
  rewrite Htyp, Hload.
  change (bool_decide (dataFrameType = metaFrameType)) with false.
  change (bool_decide (dataFrameType = headerFrameType)) with false.
  change (bool_decide (dataFrameType = dataFrameType)) with true.
  cbn iota. cbv beta. rewrite on_streamIO_frame. unfold ret. cbn [fst snd].
  split; [done|].
  unfold streamRecv, loadStreamIO in *. cbn [streams set_streams set_lastActive].
  rewrite lookup_alter_eq, Hload. cbn [fmap option_fmap option_map].
  unfold input. rewrite Hpipe. cbn [container.CtxPipe_Write container.cstate container.NewCtxPipe
                                    container.cqueue app].
  unfold output. cbn [exception set_pipe]. rewrite Hex.
  cbn.
  destruct (DecodePayload (payload fr) data) as [d' e]. cbn.
  f_equal. unfold set_streams, set_lastActive. cbn. f_equal.
  rewrite insert_alter_eq. 
  destruct sio as [c st p ca ex ef cf cb cr]. cbn in *. subst.
  apply map_eq. intros k. destruct (decide (k = sid (fr_streamFrame fr))) as [->|Hne].
  - by rewrite !lookup_insert_eq.
  - by rewrite !lookup_insert_ne.
Qed.

(** X14. [streamClose] returns nil and removes the stream's sid from the
    registry, leaving the other sids alone; a [streamRecv] on that sid
    afterwards returns [io.EOF] without touching the caller's value or the
    transport. *)
Theorem streamClose_then_streamRecv (s : stream) (data : Data) (t : transport) :
  fst (streamClose s t) = Returned None /\
  loadStreamIO (stream_sid s) (snd (streamClose s t)) = None /\
  (forall sid', sid' <> stream_sid s ->
     loadStreamIO sid' (snd (streamClose s t)) = loadStreamIO sid' t) /\
  streamRecv DecodePayload (stream_sid s) data (snd (streamClose s t))
    = (Returned (data, Some io_EOF), snd (streamClose s t)).
Proof.
  unfold streamClose, bind, modify, ret, streamRecv, loadStreamIO. cbn.
  rewrite lookup_delete_eq. repeat split; try done.
  intros sid' Hne. by rewrite lookup_delete_ne.
Qed.

(** X15. [streamCancel] on a registered stream with an open pipe and no
    exception latched returns nil; the next [streamRecv] on the sid returns
    [io.EOF] with the caller's value untouched, whatever was buffered, and
    leaves the streamIO with [io.EOF] latched and nothing queued. *)
Theorem streamCancel_then_streamRecv (s : stream) (sio : streamIO) (data : Data)
    (t : transport) :
  loadStreamIO (stream_sid s) t = Some sio ->
  exception sio = None ->
  container.cstate (pipe sio) = container.pipeStateOpen ->
  fst (streamCancel s t) = Returned None /\
  fst (streamRecv DecodePayload (stream_sid s) data (snd (streamCancel s t)))
    = Returned (data, Some io_EOF) /\
  (exists sio',
     loadStreamIO (stream_sid s)
       (snd (streamRecv DecodePayload (stream_sid s) data (snd (streamCancel s t))))
       = Some sio' /\
     exception sio' = Some io_EOF /\ container.cqueue (pipe sio') = []).
Proof.
  intros Hload Hex Hst.
  unfold streamCancel, bind, get. rewrite Hload. rewrite on_streamIO_frame.
  unfold ret. cbn [fst snd]. split; [done|].
  unfold streamRecv, loadStreamIO in *. cbn [streams set_streams].
  rewrite lookup_alter_eq, Hload. cbn [fmap option_fmap option_map].
  destruct sio as [c st [q cs] ca ex ef cf cb cr]. cbn in Hex, Hst. subst.
  unfold cancel, runCloseCallback, act_callback_test, atomic_CompareAndSwapInt32.
  cbn. destruct cb; cbn.
  - case_bool_decide; cbn.
    + split; [done|]. eexists. rewrite lookup_insert_eq. done.
    + split; [done|]. eexists. rewrite lookup_insert_eq. done.
  - split; [done|]. eexists. rewrite lookup_insert_eq. done.
Qed.

(** X16. All outcomes of [writeFrame]. It returns an error only when the
    payload encoder failed, and then has sent nothing. It returns nil only
    on an open channel with fewer than 32 frames, and then has put exactly
    one frame, with the encoded payload (none for nil data), at the tail. It
    panics only on a closed channel and blocks only on an open channel
    holding 32 frames, in both cases after a successful encoding and without
    changing the transport. *)
Theorem writeFrame_cases (meta : streamFrame) (ftype : Z) (data : option Data)
    (t : transport) :
  match writeFrame EncodePayload meta ftype data t with
  | (Returned (Some err), t') =>
      t' = t /\ exists d, data = Some d /\ EncodePayload d = inr err
  | (Returned None, t') =>
      ch_closed (wchannel t) = false /\
      (length (ch_buf (wchannel t)) < frameChanSize)%nat /\
      exists payload,
        match data with Some d => EncodePayload d = inl payload | None => payload = [] end /\
        t' = set_wchannel {| ch_buf := ch_buf (wchannel t) ++ [newFrame meta ftype payload];
                             ch_closed := false |} t
  | (Panicked _, t') =>
      ch_closed (wchannel t) = true /\ t' = t /\
      match data with Some d => exists payload, EncodePayload d = inl payload | None => True end
  | (Blocked, t') =>
      ch_closed (wchannel t) = false /\
      (frameChanSize <= length (ch_buf (wchannel t)))%nat /\ t' = t /\
      match data with Some d => exists payload, EncodePayload d = inl payload | None => True end
  end.
Proof.
  unfold writeFrame, bind, chan_send, ret.
  destruct data as [d|]; [destruct (EncodePayload d) as [payload|err] eqn:He|].
  - destruct (ch_closed (wchannel t)) eqn:Hc; [by eauto|].
    destruct (Nat.ltb_spec (length (ch_buf (wchannel t))) frameChanSize).
    + split; [done|]. split; [done|]. by exists payload.
    + by eauto.
  - split; [done|]. by exists d.
  - destruct (ch_closed (wchannel t)) eqn:Hc; [done|].
    destruct (Nat.ltb_spec (length (ch_buf (wchannel t))) frameChanSize).
    + split; [done|]. split; [done|]. by exists [].
    + done.
Qed.

Lemma writeFrame_sent (meta : streamFrame) (ftype : Z) (data : option Data)
    (payload : list byte) (t : transport) :
  match data with Some d => EncodePayload d = inl payload | None => payload = [] end ->
  ch_closed (wchannel t) = false ->
  (length (ch_buf (wchannel t)) < frameChanSize)%nat ->
  writeFrame EncodePayload meta ftype data t =
    (Returned None,
     set_wchannel {| ch_buf := ch_buf (wchannel t) ++ [newFrame meta ftype payload];
                     ch_closed := false |} t).
Proof.
  intros Hp Hc Hlen. unfold writeFrame, bind, ret.
  destruct data as [d|]; [rewrite Hp|subst payload]; by rewrite chan_send_open.
Qed.

(** X17. [streamSend] with a non-empty header, a payload that encodes, and
    an open channel with room for two frames: it returns nil and has put the
    Header frame and then the Data frame at the tail of the channel. *)
Theorem streamSend_header_then_data (sid : Z) (method : string) (wheader : Header)
    (res : option Data) (payload : list byte) (t : transport) :
  wheader <> ∅ ->
  match res with Some d => EncodePayload d = inl payload | None => payload = [] end ->
  ch_closed (wchannel t) = false ->
  (length (ch_buf (wchannel t)) + 2 <= frameChanSize)%nat ->
  streamSend EncodePayload sid method wheader res t =
    (Returned None,
     set_wchannel
       {| ch_buf := ch_buf (wchannel t) ++
                      [newFrame (streamFrame_lit sid method wheader ∅) headerFrameType [];
                       newFrame (streamFrame_lit sid method ∅ ∅) dataFrameType payload];
          ch_closed := false |} t).
Proof.
  intros Hne Hp Hc Hlen. unfold streamSend, streamSendHeader.
  assert (Hsz : (0 <? size wheader)%nat = true).
  { apply Nat.ltb_lt. destruct (decide (size wheader = 0%nat)) as [Hz|]; [|lia].
    by apply map_size_empty_iff in Hz. }
  rewrite Hsz. unfold bind at 1.
  rewrite (writeFrame_sent _ _ None []) by (done || lia).
  rewrite (writeFrame_sent _ _ res payload); [|done|done|cbn; rewrite length_app; cbn; lia].
  cbn. by rewrite <- app_assoc.
Qed.

(** X18. [streamSend] with a non-empty header and a payload that fails to
    encode, on an open channel with room: the encoder's error is returned,
    but the Header frame has already been put on the channel. *)
Theorem streamSend_encode_failure_after_header (sid : Z) (method : string)
    (wheader : Header) (d : Data) (err : error) (t : transport) :
  wheader <> ∅ ->
  EncodePayload d = inr err ->
  ch_closed (wchannel t) = false ->
  (length (ch_buf (wchannel t)) < frameChanSize)%nat ->
  streamSend EncodePayload sid method wheader (Some d) t =
    (Returned (Some err),
     set_wchannel
       {| ch_buf := ch_buf (wchannel t) ++
                      [newFrame (streamFrame_lit sid method wheader ∅) headerFrameType []];
          ch_closed := false |} t).
Proof.
  intros Hne He Hc Hlen. unfold streamSend, streamSendHeader.
  assert (Hsz : (0 <? size wheader)%nat = true).
  { apply Nat.ltb_lt. destruct (decide (size wheader = 0%nat)) as [Hz|]; [|lia].
    by apply map_size_empty_iff in Hz. }
  rewrite Hsz. unfold bind at 1.
  rewrite (writeFrame_sent _ _ None []) by done.
  unfold writeFrame. by rewrite He.
Qed.

(** X19. On a transport that is not a client, [newStream] returns its
    "other kind" error and leaves counter and transport as they were. On a
    client it always stores the counter plus one (wrapped) back, whether the
    call then returns, panics or blocks; for a method the directory has, the
    streamIO is registered under the new sid even when the Header frame
    cannot be sent; for a method it lacks the call panics with the transport
    unchanged. *)
Theorem newStream_accounting (ctx : Context) (method : string) (header : Header) (c : Z)
    (t : transport) :
  let r := transport_newStream EncodePayload ctx method header (c, t) in
  if bool_decide (kind t = clientTransport) then
    fst (snd r) = atomic_AddInt32 c 1 /\
    match ServiceInfo_MethodInfo (sinfo t) method with
    | Some mi =>
        streams (snd (snd r)) =
          <[atomic_AddInt32 c 1 :=
              newStreamIO ctx
                (stream_new (StreamingMode_of mi)
                   (streamFrame_lit (atomic_AddInt32 c 1) method header ∅))]> (streams t)
    | None => (exists msg, fst r = Panicked msg) /\ snd (snd r) = t
    end
  else r = (Returned (None, Some (Errorf "transport already be used as other kind")), (c, t)).
Proof.
  cbv zeta. unfold transport_newStream.
  case_bool_decide as Hk; cbn [negb]; [|done].
  destruct (ServiceInfo_MethodInfo (sinfo t) method) as [mi|]; [|by eauto].
  unfold bind, newStream, storeStreamIO, modify, writeFrame, bind, ret, chan_send.
  cbn. destruct (ch_closed (wchannel t)); [done|].
  destruct (length (ch_buf (wchannel t)) <=? 31)%nat; done.
Qed.

End StreamsMore.

Section AcceptMore.
Local Open Scope nat_scope.

Lemma readStreams_add (fuel a b : nat) : forall t,
  readStreams fuel (a + b) t =
    match readStreams fuel a t with
    | Some (rs, t1) =>
        match readStreams fuel b t1 with
        | Some (rs', t2) => Some (rs ++ rs', t2)
        | None => None
        end
    | None => None
    end.
Proof.
  induction a as [|a IH]; intros t; cbn [readStreams Nat.add].
  - by destruct (readStreams fuel b t) as [[rs' t2]|].
  - destruct (readStream fuel t) as [[[r|m|] t1]|]; try done.
    rewrite IH. destruct (readStreams fuel a t1) as [[rs t2]|]; [|done].
    by destruct (readStreams fuel b t2) as [[rs' t3]|].
Qed.

(** One refill of the cache and the calls that use it up. *)
Lemma readStreams_batch (fuel : nat) (ss : list stream) (t : transport) :
  2 <= fuel ->
  kind t = serverTransport ->
  sl_len (scache t) = 0 ->
  length (sl_array (scache t)) = streamCacheSize ->
  container.queue (spipe t) = Some <$> ss ->
  ss <> [] ->
  readStreams fuel (length (take streamCacheSize ss)) t =
    Some (accepted <$> reverse (take streamCacheSize ss),
          set_scache
            {| sl_array := (Some <$> take streamCacheSize ss) ++
                             drop (length (take streamCacheSize ss)) (sl_array (scache t));
               sl_len := 0 |}
            (set_spipe {| container.queue := Some <$> drop streamCacheSize ss;
                          container.closed := container.closed (spipe t) |} t)).
Proof.
  intros Hfuel Hk Hlen Hcap Hq Hne.
  destruct fuel as [|[|fuel]]; [lia|lia|].
  set (b := take streamCacheSize ss).
  assert (Hb1 : 1 <= length b).
  { unfold b. rewrite length_take. destruct ss; [done|]. unfold streamCacheSize. simpl. lia. }
  assert (Hb2 : length b <= streamCacheSize) by (unfold b; rewrite length_take; lia).
  destruct (lookup_lt_is_Some_2 b (length b - 1)) as [x Hx]; [lia|].
  set (arr := (Some <$> b) ++ drop (length b) (sl_array (scache t))).
  set (p1 := {| container.queue := Some <$> drop streamCacheSize ss;
                container.closed := container.closed (spipe t) |}
             : container.Pipe (option stream)).
  set (t1 := set_scache {| sl_array := arr; sl_len := length b - 1 |} (set_spipe p1 t)).
  assert (Hfirst : readStream (S (S fuel)) t = Some (Returned (accepted x), t1)).
  { unfold readStream. rewrite Hk.
    change (negb (bool_decide (serverTransport = serverTransport))) with false.
    cbn iota. rewrite readStream_READ_refill by (done || lia).
    rewrite (take_ge (sl_array (scache t))), (drop_ge (sl_array (scache t))) by lia.
    rewrite Read_nonempty; [|lia|rewrite Hq; by destruct ss].
    rewrite Hq, Hcap. rewrite <- !fmap_take, <- fmap_drop. fold b.
    rewrite length_fmap, app_nil_r.
    replace (length b =? 0) with false by (symmetry; apply Nat.eqb_neq; lia).
    fold arr. fold p1.
    rewrite (readStream_READ_cached fuel _ (Some x)).
    - unfold accepted, t1. done.
    - cbn [scache set_scache sl_len]. lia.
    - cbn [scache set_scache sl_len sl_array]. unfold arr.
      rewrite lookup_app_l by (rewrite length_fmap; lia).
      by rewrite list_lookup_fmap, Hx. }
  assert (Hrev : reverse b = x :: reverse (take (length b - 1) b)).
  { rewrite <- (take_drop (length b - 1) b) at 1.
    rewrite (drop_S b x (length b - 1) Hx).
    replace (S (length b - 1)) with (length b) by lia.
    rewrite drop_all, reverse_app. done. }
  replace (length b) with (S (length b - 1)) at 1 by lia.
  cbn [readStreams]. rewrite Hfirst.
  rewrite (readStreams_cached (S fuel) b (drop (length b) (sl_array (scache t)))
             (length b - 1) t1); [|done|done|done|lia].
  rewrite Hrev. done.
Qed.

Lemma readStream_drained (fuel : nat) (t : transport) :
  2 <= fuel ->
  kind t = serverTransport ->
  sl_len (scache t) = 0 ->
  length (sl_array (scache t)) = streamCacheSize ->
  container.queue (spipe t) = [] ->
  readStream fuel t =
    Some (if container.closed (spipe t) then Returned (None, Some io_EOF) else Blocked, t).
Proof.
  intros Hfuel Hk Hlen Hcap Hq.
  destruct fuel as [|[|fuel]]; [lia|lia|].
  unfold readStream. rewrite Hk.
  change (negb (bool_decide (serverTransport = serverTransport))) with false.
  cbn iota. rewrite readStream_READ_refill by (done || lia).
  rewrite (take_ge (sl_array (scache t))), (drop_ge (sl_array (scache t))) by lia.
  rewrite Read_drained by done. rewrite app_nil_r.
  assert (Ht : set_scache {| sl_array := sl_array (scache t); sl_len := 0 |}
                 (set_spipe (spipe t) t) = t).
  { destruct t as [k si cn sm [arr n] sp wc la rl]. cbn in *. by subst. }
  destruct (container.closed (spipe t)); cbn; by rewrite Ht.
Qed.

(** X20. [readStream] on a server transport with an empty cache and an empty
    accept pipe: on a closed pipe it returns a nil stream and [io.EOF], on an
    open one it waits; the transport is unchanged. *)
Theorem readStream_nothing_queued (fuel : nat) (t : transport) :
  2 <= fuel ->
  kind t = serverTransport ->
  sl_len (scache t) = 0 ->
  length (sl_array (scache t)) = streamCacheSize ->
  container.queue (spipe t) = [] ->
  readStream fuel t =
    Some (if container.closed (spipe t) then Returned (None, Some io_EOF) else Blocked, t).
Proof.
  intros Hfuel Hk Hlen Hcap Hq.
  destruct fuel as [|[|fuel]]; [lia|lia|].
  unfold readStream. rewrite Hk.
  change (negb (bool_decide (serverTransport = serverTransport))) with false.
  cbn iota. rewrite readStream_READ_refill by (done || lia).
  rewrite (take_ge (sl_array (scache t))), (drop_ge (sl_array (scache t))) by lia.
  rewrite Read_drained by done. rewrite app_nil_r.
  assert (Ht : set_scache {| sl_array := sl_array (scache t); sl_len := 0 |}
                 (set_spipe (spipe t) t) = t).
  { destruct t as [k si cn sm [arr n] sp wc la rl]. cbn in *. by subst. }
  destruct (container.closed (spipe t)); cbn; by rewrite Ht.
Qed.

(** X21. [readStream] with an empty cache and any positive number of streams
    queued: the next min(k, 32) calls return the first 32 queued streams (or
    all of them) in reverse order, the later ones stay in the accept pipe in
    order, and the cache is empty again with its capacity of 32, so the same
    holds for the next batch. *)
Theorem readStream_batches_of_32 (fuel : nat) (ss : list stream) (t : transport) :
  2 <= fuel ->
  kind t = serverTransport ->
  sl_len (scache t) = 0 ->
  length (sl_array (scache t)) = streamCacheSize ->
  container.queue (spipe t) = Some <$> ss ->
  ss <> [] ->
  exists tk,
    readStreams fuel (length ss `min` streamCacheSize) t
      = Some (accepted <$> reverse (take streamCacheSize ss), tk) /\
    container.queue (spipe tk) = Some <$> drop streamCacheSize ss /\
    container.closed (spipe tk) = container.closed (spipe t) /\
    kind tk = serverTransport /\
    sl_len (scache tk) = 0 /\
    length (sl_array (scache tk)) = streamCacheSize.
Proof.
  intros Hfuel Hk Hlen Hcap Hq Hne.
  pose proof (readStreams_batch fuel ss t Hfuel Hk Hlen Hcap Hq Hne) as H.
  rewrite length_take, Nat.min_comm in H.
  eexists. split; [exact H|]. cbn. repeat split; try done.
  rewrite length_app, length_fmap, length_drop, length_take.
  unfold streamCacheSize in *. lia.
Qed.

Lemma Close_open (t : transport) :
  ch_closed (wchannel t) = false ->
  Close t = (Returned (conn_close_result (conn t)), after_Close t).
Proof.
  intros Hc. unfold Close, bind, spipe_Close, chan_close, conn_Close, modify, ret.
  cbn. rewrite Hc. cbn.
  unfold after_Close, set_conn, add_release, set_wchannel, set_spipe. cbn.
  by rewrite <- !app_assoc.
Qed.

(** X22. [Close] does not discard accepted streams: with at most 32 streams
    queued on the accept pipe and an empty cache, the calls of [readStream]
    after [Close] still return all of them (in reverse order) and only then
    a nil stream with [io.EOF]. *)
Theorem Close_then_readStream_drains (fuel : nat) (ss : list stream) (t : transport) :
  2 <= fuel ->
  kind t = serverTransport ->
  ch_closed (wchannel t) = false ->
  sl_len (scache t) = 0 ->
  length (sl_array (scache t)) = streamCacheSize ->
  container.queue (spipe t) = Some <$> ss ->
  length ss <= streamCacheSize ->
  exists tk,
    readStreams fuel (length ss + 1) (snd (Close t))
      = Some ((accepted <$> reverse ss) ++ [(None, Some io_EOF)], tk).
Proof.
  intros Hfuel Hk Hc Hlen Hcap Hq Hss.
  rewrite Close_open by done. cbn [snd].
  rewrite readStreams_add.
  destruct (decide (ss = [])) as [->|Hne].
  - cbn [length readStreams]. rewrite readStream_drained by done.
    cbn. eexists. done.
  - pose proof (readStreams_batch fuel ss (after_Close t) Hfuel Hk Hlen Hcap Hq Hne) as H.
    rewrite take_ge in H by lia. rewrite H.
    cbn [readStreams]. rewrite readStream_drained; cbn; try done.
    + eexists. done.
    + rewrite length_app, length_fmap, length_drop.
      unfold streamCacheSize in Hcap, Hss |- *. lia.
    + unfold streamCacheSize in Hss |- *. by rewrite drop_ge by lia.
Qed.

End AcceptMore.

Section WriterMore.
Variable EncodeFrame_err : Frame -> option error.
Variable Flush_err : list Frame -> option error.
Local Open Scope nat_scope.

Lemma loopWrite_S (fuel : nat) (t : transport) (w : connWriter) :
  loopWrite EncodeFrame_err Flush_err (S fuel) (t, w) =
    match ch_buf (wchannel t) with
    | [] => if ch_closed (wchannel t) then Some (Returned None, (t, w)) else Some (Blocked, (t, w))
    | frame :: rest =>
        let t' := set_wchannel {| ch_buf := rest; ch_closed := ch_closed (wchannel t) |} t in
        match EncodeFrame EncodeFrame_err frame w with
        | (w', Some err) => Some (Returned (Some err), (t', w'))
        | (w', None) =>
            if (length rest =? 0)%nat then
              match Writer_Flush Flush_err w' with
              | (w'', Some err) => Some (Returned (Some err), (t', w''))
              | (w'', None) => loopWrite EncodeFrame_err Flush_err fuel (t', w'')
              end
            else loopWrite EncodeFrame_err Flush_err fuel (t', w')
        end
    end.
Proof. reflexivity. Qed.

Lemma loopWrite_encodes (fuel : nat) : forall (fs : list Frame) (t : transport) (w : connWriter),
  Forall (fun fr => EncodeFrame_err fr = None) fs ->
  ch_buf (wchannel t) = fs ->
  fs <> [] ->
  length fs <= fuel ->
  loopWrite EncodeFrame_err Flush_err (S fuel) (t, w) =
    match Flush_err (w_buffered w ++ fs) with
    | Some err =>
        Some (Returned (Some err),
              (chan_drained t, {| w_buffered := w_buffered w ++ fs; w_flushed := w_flushed w |}))
    | None =>
        loopWrite EncodeFrame_err Flush_err (S (fuel - length fs))
          (chan_drained t, {| w_buffered := []; w_flushed := w_flushed w ++ w_buffered w ++ fs |})
    end.
Proof.
  induction fuel as [|fuel IH]; intros fs t w Hall Hbuf Hne Hlen.
  - destruct fs; [done|simpl in Hlen; lia].
  - destruct fs as [|fr fs]; [done|].
    inversion Hall as [|? ? Hfr Hall']; subst.
    rewrite loopWrite_S, Hbuf. cbv zeta. unfold EncodeFrame. rewrite Hfr.
    destruct fs as [|fr2 fs].
    + cbn [length Nat.eqb]. unfold Writer_Flush. cbn [w_buffered w_flushed].
      unfold chan_drained.
      destruct (Flush_err (w_buffered w ++ [fr])); [done|].
      cbn [length]. replace (S fuel - 1) with fuel by lia. done.
    + cbn [length Nat.eqb].
      rewrite (IH (fr2 :: fs)); [|done|done|done|simpl in *; lia].
      cbn [w_buffered w_flushed]. rewrite <- !app_assoc. cbn [app].
      unfold chan_drained. cbn [length]. done.
Qed.

Lemma loopWrite_drains_batch (fuel : nat) (t : transport) (w : connWriter) :
  length (ch_buf (wchannel t)) < fuel ->
  ch_buf (wchannel t) <> [] ->
  Forall (fun fr => EncodeFrame_err fr = None) (ch_buf (wchannel t)) ->
  Flush_err (w_buffered w ++ ch_buf (wchannel t)) = None ->
  loopWrite EncodeFrame_err Flush_err fuel (t, w) =
    Some (if ch_closed (wchannel t) then Returned None else Blocked,
          (chan_drained t,
           {| w_buffered := [];
              w_flushed := w_flushed w ++ w_buffered w ++ ch_buf (wchannel t) |})).
Proof.
  intros Hfuel Hne Hall Hflush. destruct fuel as [|fuel]; [lia|].
  rewrite (loopWrite_encodes fuel (ch_buf (wchannel t))); [|done|done|done|lia].
  rewrite Hflush, loopWrite_S. unfold chan_drained. cbn.
  by destruct (ch_closed (wchannel t)).
Qed.

(** X23. The writer loop on a channel holding frames, when neither encoding
    nor the flush fails: every frame is encoded, in channel order, behind
    what was already buffered; the flush happens once, when the channel has
    become empty, and covers the whole batch. Then the loop returns nil if
    the channel is closed and waits if it is open. *)
Theorem loopWrite_drains_in_order (fuel : nat) (t : transport) (w : connWriter) :
  length (ch_buf (wchannel t)) < fuel ->
  ch_buf (wchannel t) <> [] ->
  Forall (fun fr => EncodeFrame_err fr = None) (ch_buf (wchannel t)) ->
  Flush_err (w_buffered w ++ ch_buf (wchannel t)) = None ->
  loopWrite EncodeFrame_err Flush_err fuel (t, w) =
    Some (if ch_closed (wchannel t) then Returned None else Blocked,
          (chan_drained t,
           {| w_buffered := [];
              w_flushed := w_flushed w ++ w_buffered w ++ ch_buf (wchannel t) |})).
Proof.
  intros Hfuel Hne Hall Hflush. destruct fuel as [|fuel]; [lia|].
  rewrite (loopWrite_encodes fuel (ch_buf (wchannel t))); [|done|done|done|lia].
  rewrite Hflush, loopWrite_S. unfold chan_drained. cbn.
  by destruct (ch_closed (wchannel t)).
Qed.

(** X24. When a frame fails to encode, the writer loop returns that error:
    the frames before it have been encoded but not flushed, the failing
    frame has been taken from the channel, and the frames behind it are
    still in the channel. *)
Theorem loopWrite_encode_failure (fuel : nat) (pre post : list Frame) (fr : Frame)
    (err : error) (t : transport) (w : connWriter) :
  length pre < fuel ->
  ch_buf (wchannel t) = pre ++ fr :: post ->
  Forall (fun fr => EncodeFrame_err fr = None) pre ->
  EncodeFrame_err fr = Some err ->
  loopWrite EncodeFrame_err Flush_err fuel (t, w) =
    Some (Returned (Some err),
          (set_wchannel {| ch_buf := post; ch_closed := ch_closed (wchannel t) |} t,
           {| w_buffered := w_buffered w ++ pre; w_flushed := w_flushed w |})).
Proof.
  revert pre t w. induction fuel as [|fuel IH]; intros pre t w Hfuel Hbuf Hall Hfr; [lia|].
  destruct pre as [|f0 pre].
  - rewrite loopWrite_S, Hbuf. cbn [app]. cbv zeta. unfold EncodeFrame. rewrite Hfr.
    rewrite app_nil_r. by destruct w.
  - inversion Hall as [|? ? Hf0 Hall']; subst.
    rewrite loopWrite_S, Hbuf. cbn [app]. cbv zeta. unfold EncodeFrame. rewrite Hf0.
    replace (length (pre ++ fr :: post) =? 0) with false
      by (symmetry; apply Nat.eqb_neq; rewrite length_app; simpl; lia).
    rewrite (IH pre); [|simpl in Hfuel; lia|done|done|done].
    cbn. by rewrite <- app_assoc.
Qed.

(** X25. [streamSend] with a header on an empty open channel, followed by
    the writer loop with collaborators that do not fail: the Header frame
    and then the Data frame reach the peer, in this order, in one flush, and
    the loop waits for more. *)
Theorem streamSend_then_loopWrite {Data : Type} (EncodePayload : Data -> list byte + error)
    (fuel : nat) (sid : Z) (method : string) (wheader : Header) (res : option Data)
    (payload : list byte) (t : transport) (w : connWriter) :
  3 <= fuel ->
  wheader <> ∅ ->
  match res with Some d => EncodePayload d = inl payload | None => payload = [] end ->
  ch_closed (wchannel t) = false ->
  ch_buf (wchannel t) = [] ->
  let h := newFrame (streamFrame_lit sid method wheader ∅) headerFrameType [] in
  let d := newFrame (streamFrame_lit sid method ∅ ∅) dataFrameType payload in
  EncodeFrame_err h = None ->
  EncodeFrame_err d = None ->
  Flush_err (w_buffered w ++ [h; d]) = None ->
  loopWrite EncodeFrame_err Flush_err fuel
      (snd (streamSend EncodePayload sid method wheader res t), w) =
    Some (Blocked,
          (set_wchannel {| ch_buf := []; ch_closed := false |} t,
           {| w_buffered := []; w_flushed := w_flushed w ++ w_buffered w ++ [h; d] |})).
Proof.
  intros Hfuel Hne Hp Hc Hbuf h d Hh Hd Hflush.
  assert (Hsend : streamSend EncodePayload sid method wheader res t =
            (Returned None, set_wchannel {| ch_buf := [h; d]; ch_closed := false |} t)).
  { unfold streamSend, streamSendHeader.
    assert (Hsz : (0 <? size wheader)%nat = true).
    { apply Nat.ltb_lt. destruct (decide (size wheader = 0%nat)) as [Hz|]; [|lia].
      by apply map_size_empty_iff in Hz. }
    rewrite Hsz. unfold bind at 1.
    rewrite (writeFrame_sent _ _ _ None []);
      [|done|done|rewrite Hbuf; unfold frameChanSize; cbn; lia].
    rewrite (writeFrame_sent _ _ _ res payload);
      [|done|done|cbn; rewrite Hbuf; unfold frameChanSize; cbn; lia].
    cbn. by rewrite Hbuf. }
  rewrite Hsend. cbn [snd].
  rewrite loopWrite_drains_batch.
  - done.
  - cbn [wchannel set_wchannel ch_buf length]. lia.
  - done.
  - cbn [wchannel set_wchannel ch_buf]. by repeat constructor.
  - exact Hflush.
Qed.

End WriterMore.

Section ConnBufferMore.

Lemma int_wrap_small (z : Z) : 0 <= z <= MaxInt -> int_wrap z = z.
Proof.
  unfold int_wrap, MaxInt. intros H. rewrite Z.mod_small by lia. lia.
Qed.

Lemma connBuffer_call_counts (rc : readCall) (c : connBuffer) :
  0 <= readSize c ->
  readSize c + Z.of_nat (length (cb_reader c)) <= MaxInt ->
  let c' := connBuffer_call rc c in
  (length (cb_reader c') <= length (cb_reader c))%nat /\
  cb_reader c' = drop (length (cb_reader c) - length (cb_reader c')) (cb_reader c) /\
  readSize c' = readSize c + (Z.of_nat (length (cb_reader c)) - Z.of_nat (length (cb_reader c'))).
Proof.
  intros H0 Hmax. cbv zeta.
  destruct rc as [n|bs|n|n]; cbn [connBuffer_call].
  - unfold connBuffer_Next, Reader_Next.
    destruct (Nat.leb_spec n (length (cb_reader c))); cbn.
    + rewrite length_drop, length_take. split; [lia|].
      split; [f_equal; lia|].
      rewrite int_wrap_small by lia. lia.
    + rewrite Nat.sub_diag, drop_0. split; [lia|]. split; [done|].
      rewrite int_wrap_small by lia. lia.
  - unfold connBuffer_ReadBinary, Reader_Next.
    destruct (Nat.leb_spec (length bs) (length (cb_reader c))); cbn.
    + rewrite length_drop. split; [lia|]. split; [f_equal; lia|].
      rewrite int_wrap_small by lia. lia.
    + rewrite Nat.sub_diag, drop_0. split; [lia|]. split; [done|]. lia.
  - rewrite Nat.sub_diag, drop_0. split; [lia|]. split; [done|]. lia.
  - unfold connBuffer_Skip, Reader_Skip.
    destruct (Nat.leb_spec n (length (cb_reader c))); cbn.
    + rewrite length_drop. split; [lia|]. split; [f_equal; lia|].
      rewrite int_wrap_small by lia. lia.
    + rewrite Nat.sub_diag, drop_0. split; [lia|]. split; [done|]. lia.
Qed.

(** X26. For any sequence of [Next], [ReadBinary], [Peek] and [Skip] calls
    on a [connBuffer], failed ones included: the reader is left with a
    suffix of what it held, and [ReadLen] has grown by exactly the number of
    bytes consumed (as long as the count stays in the range of int). *)
Theorem connBuffer_ReadLen_counts_consumed (calls : list readCall) (c : connBuffer) :
  0 <= readSize c ->
  readSize c + Z.of_nat (length (cb_reader c)) <= MaxInt ->
  let c' := fold_left (fun c rc => connBuffer_call rc c) calls c in
  exists k : nat,
    cb_reader c' = drop k (cb_reader c) /\
    (k <= length (cb_reader c))%nat /\
    connBuffer_ReadLen c' = connBuffer_ReadLen c + Z.of_nat k.
Proof.
  revert c. induction calls as [|rc calls IH]; intros c H0 Hmax; cbv zeta.
  - exists 0%nat. cbn [fold_left]. rewrite drop_0. split; [done|]. split; [lia|].
    cbn. lia.
  - cbn [fold_left].
    destruct (connBuffer_call_counts rc c H0 Hmax) as (Hle & Hdrop & Hsize).
    set (c1 := connBuffer_call rc c) in *.
    destruct (IH c1) as (k & Hk1 & Hk2 & Hk3); [lia|lia|].
    remember (length (cb_reader c) - length (cb_reader c1))%nat as a eqn:Ha.
    exists (a + k)%nat.
    split; [|split].
    + rewrite Hk1, Hdrop, drop_drop. done.
    + lia.
    + unfold connBuffer_ReadLen in *. rewrite Hk3, Hsize. lia.
Qed.

Lemma connBuffer_ReadBinary_cases (bs : list byte) (c : connBuffer) :
  0 <= readSize c ->
  readSize c + Z.of_nat (length (cb_reader c)) <= MaxInt ->
  connBuffer_ReadBinary bs c =
    if (length bs <=? length (cb_reader c))%nat
    then (take (length bs) (cb_reader c), Z.of_nat (length bs), None,
          {| cb_reader := drop (length bs) (cb_reader c);
             readSize := readSize c + Z.of_nat (length bs) |})
    else (bs, 0, Some errNotEnough, c).
Proof.
  intros H0 Hmax. unfold connBuffer_ReadBinary, Reader_Next.
  destruct (Nat.leb_spec (length bs) (length (cb_reader c))).
  - rewrite int_wrap_small by lia.
    rewrite take_take, Nat.min_id, length_take, Nat.min_l by lia.
    by rewrite drop_all, app_nil_r.
  - by destruct c.
Qed.

End ConnBufferMore.

Section CallOptMore.
Import streamxcallopt.
Context {StreamCloseCallback : Type}.

Lemma Apply_appends (copts : CallOptions StreamCloseCallback)
    (cbs : list StreamCloseCallback) :
  Apply copts (WithStreamCloseCallback <$> cbs) =
    {| StreamCloseCallbacks := StreamCloseCallbacks copts ++ cbs |}.
Proof.
  revert copts. induction cbs as [|cb cbs IH]; intros copts.
  - cbn. rewrite app_nil_r. by destruct copts.
  - rewrite fmap_cons. unfold Apply in *. cbn [fold_left]. rewrite IH.
    cbn. by rewrite <- app_assoc.
Qed.

(** X27. Applying the options made by [WithStreamCloseCallback] from a list
    of callbacks appends these callbacks, in the order of the list, behind
    the callbacks the options already had. *)
Theorem Apply_WithStreamCloseCallback (copts : CallOptions StreamCloseCallback)
    (cbs : list StreamCloseCallback) :
  Apply copts (WithStreamCloseCallback <$> cbs) =
    {| StreamCloseCallbacks := StreamCloseCallbacks copts ++ cbs |}.
Proof.
  revert copts. induction cbs as [|cb cbs IH]; intros copts.
  - cbn. rewrite app_nil_r. by destruct copts.
  - rewrite fmap_cons. unfold Apply in *. cbn [fold_left]. rewrite IH.
    cbn. by rewrite <- app_assoc.
Qed.

(** X28. [NewCtxWithCallOptions] allocates fresh, empty call options and
    [GetCallOptionsFromCtx] finds exactly them in the returned context, also
    below values that other packages have added since; callbacks applied
    later through the pointer are the ones found there, and no other call
    options are touched. *)
Theorem NewCtxWithCallOptions_round_trip (ctx : valueCtx) (h : gmap nat (CallOptions StreamCloseCallback))
    (others : list (string * ctxValue)) (cbs : list StreamCloseCallback) :
  let '(ctx', p, h') := NewCtxWithCallOptions ctx h in
  let ctx'' := ((fun kv => (ctxKeyOther (fst kv), snd kv)) <$> others) ++ ctx' in
  h !! p = None /\
  GetCallOptionsFromCtx ctx'' = Some p /\
  h' !! p = Some {| StreamCloseCallbacks := [] |} /\
  Apply_at p (WithStreamCloseCallback <$> cbs) h' !! p = Some {| StreamCloseCallbacks := cbs |} /\
  forall q, q <> p -> Apply_at p (WithStreamCloseCallback <$> cbs) h' !! q = h !! q.
Proof.
  unfold NewCtxWithCallOptions. cbv zeta.
  set (p := fresh (dom h)).
  assert (Hp : h !! p = None) by (apply not_elem_of_dom, is_fresh).
  split; [done|]. split; [|split; [|split]].
  - unfold GetCallOptionsFromCtx.
    induction others as [|[name v] others IH]; [done|]. exact IH.
  - by rewrite lookup_insert_eq.
  - unfold Apply_at. rewrite lookup_alter_eq, lookup_insert_eq. cbn.
    by rewrite Apply_appends.
  - intros q Hq. unfold Apply_at. rewrite lookup_alter_ne, lookup_insert_ne by done. done.
Qed.

End CallOptMore.
(** ** The further properties at concrete inputs *)

(** An instance of X1: a slice of two on a closed pipe with three items. *)
Lemma Pipe_Read_cases_witness :
  (1 <= 1)%nat /\ (1 <= length [0; 0]%nat)%nat /\
  container.Read 1 example_pipe [0; 0]%nat =
    match container.queue example_pipe with
    | [] =>
        Some (if container.closed example_pipe
              then Returned (0%nat, Some container.PipeEOF) else Blocked,
              [0; 0]%nat, example_pipe)
    | _ :: _ =>
        let n := (length [0; 0]%nat `min` length (container.queue example_pipe))%nat in
        Some (Returned (n, None),
              take n (container.queue example_pipe) ++ drop n [0; 0]%nat,
              {| container.queue := drop n (container.queue example_pipe);
                 container.closed := container.closed example_pipe |})
    end.
Proof.
  assert (H1 : (1 <= 1)%nat) by lia.
  assert (H2 : (1 <= length [0; 0]%nat)%nat) by (simpl; lia).
  split; [exact H1|]. split; [exact H2|].
  exact (Pipe_Read_cases 1 example_pipe [0; 0]%nat H1 H2).
Defined.

(** An instance of X3: end of file on a closed, empty pipe. *)
Lemma output_error_latches_witness :
  output context_Background (closeRecv example_bare_streamIO)
    = (Returned (streamIOMsg_zero, Some io_EOF),
       set_exception (Some io_EOF) (closeRecv example_bare_streamIO)) /\
  exception (set_exception (Some io_EOF) (closeRecv example_bare_streamIO)) = Some io_EOF /\
  output context_Background (set_exception (Some io_EOF) (closeRecv example_bare_streamIO))
    = (Returned (streamIOMsg_zero, Some io_EOF),
       set_exception (Some io_EOF) (closeRecv example_bare_streamIO)).
Proof.
  assert (H : output context_Background (closeRecv example_bare_streamIO)
              = (Returned (streamIOMsg_zero, Some io_EOF),
                 set_exception (Some io_EOF) (closeRecv example_bare_streamIO)))
    by reflexivity.
  split; [exact H|].
  exact (output_error_latches context_Background context_Background _ _ _ _ H).
Defined.

(** An instance of X4: one payload queued. *)
Lemma output_head_witness :
  exception example_loaded_streamIO = None /\
  container.cqueue (pipe example_loaded_streamIO) = example_msg :: [] /\
  container.cstate (pipe example_loaded_streamIO) <> container.pipeStateCanceled /\
  output context_Background example_loaded_streamIO =
    (Returned (example_msg, msg_exception example_msg),
     set_exception (msg_exception example_msg)
       (set_cache example_msg
          (set_pipe (fun _ => {| container.cqueue := [];
                                 container.cstate :=
                                   container.cstate (pipe example_loaded_streamIO) |})
             example_loaded_streamIO))).
Proof.
  assert (H3 : container.cstate (pipe example_loaded_streamIO) <> container.pipeStateCanceled)
    by (simpl; discriminate).
  split; [reflexivity|]. split; [reflexivity|]. split; [exact H3|].
  exact (output_head context_Background example_loaded_streamIO example_msg []
           eq_refl eq_refl H3).
Defined.

(** An instance of X5: a cancelled stream that had a payload queued. *)
Lemma output_end_of_stream_witness :
  exception (cancel example_loaded_streamIO) = None /\
  (container.cstate (pipe (cancel example_loaded_streamIO)) = container.pipeStateCanceled \/
   (container.cstate (pipe (cancel example_loaded_streamIO)) = container.pipeStateClosed /\
    container.cqueue (pipe (cancel example_loaded_streamIO)) = [])) /\
  output context_Background (cancel example_loaded_streamIO) =
    (Returned (streamIOMsg_zero, Some io_EOF),
     set_exception (Some io_EOF) (cancel example_loaded_streamIO)).
Proof.
  assert (H2 : container.cstate (pipe (cancel example_loaded_streamIO))
                 = container.pipeStateCanceled \/
               (container.cstate (pipe (cancel example_loaded_streamIO))
                  = container.pipeStateClosed /\
                container.cqueue (pipe (cancel example_loaded_streamIO)) = []))
    by (left; reflexivity).
  split; [reflexivity|]. split; [exact H2|].
  exact (output_end_of_stream context_Background (cancel example_loaded_streamIO) eq_refl H2).
Defined.

(** An instance of X6: [closeSend] twice. *)
Lemma half_closes_fire_on_second_witness :
  half_close callCloseSend = true /\ half_close callCloseSend = true /\
  closeCallback example_streamIO = Some tt /\
  eofFlag example_streamIO = 0 /\ callbackFlag example_streamIO = 0 /\
  callbackRuns (call callCloseSend example_streamIO) = callbackRuns example_streamIO /\
  callbackRuns (call callCloseSend (call callCloseSend example_streamIO))
    = S (callbackRuns example_streamIO) /\
  callbackFlag (call callCloseSend (call callCloseSend example_streamIO)) = 1 /\
  eofFlag (call callCloseSend (call callCloseSend example_streamIO)) = 2.
Proof.
  do 5 (split; [reflexivity|]).
  exact (half_closes_fire_on_second callCloseSend callCloseSend example_streamIO
           eq_refl eq_refl eq_refl eq_refl eq_refl).
Defined.

(** An instance of X7: [cancel]. *)
Lemma close_cancel_fire_at_once_witness :
  full_close callCancel = true /\
  closeCallback example_streamIO = Some tt /\ callbackFlag example_streamIO = 0 /\
  callbackRuns (call callCancel example_streamIO) = S (callbackRuns example_streamIO) /\
  callbackFlag (call callCancel example_streamIO) = 1 /\
  eofFlag (call callCancel example_streamIO) = eofFlag example_streamIO /\
  s_closed (sio_stream (call callCancel example_streamIO)) = true /\
  forall ops : list closeOp,
    callbackRuns (fold_left (fun s op => call op s) ops (call callCancel example_streamIO))
      = S (callbackRuns example_streamIO).
Proof.
  do 3 (split; [reflexivity|]).
  exact (close_cancel_fire_at_once callCancel example_streamIO eq_refl eq_refl eq_refl).
Defined.

(** An instance of X8: two goroutines on a streamIO without callback. *)
Lemma no_callback_no_accounting_witness :
  closeCallback example_bare_streamIO = None /\
  eofFlag (fst (run_schedule [0; 1; 0; 1; 0; 1; 0; 1]%nat
                  (example_bare_streamIO,
                   go <$> [[callCloseSend; callCloseRecv]; [callCancel]])))
    = eofFlag example_bare_streamIO /\
  callbackFlag (fst (run_schedule [0; 1; 0; 1; 0; 1; 0; 1]%nat
                       (example_bare_streamIO,
                        go <$> [[callCloseSend; callCloseRecv]; [callCancel]])))
    = callbackFlag example_bare_streamIO /\
  callbackRuns (fst (run_schedule [0; 1; 0; 1; 0; 1; 0; 1]%nat
                       (example_bare_streamIO,
                        go <$> [[callCloseSend; callCloseRecv]; [callCancel]])))
    = callbackRuns example_bare_streamIO.
Proof.
  split; [reflexivity|].
  exact (no_callback_no_accounting example_bare_streamIO
           [[callCloseSend; callCloseRecv]; [callCancel]] [0; 1; 0; 1; 0; 1; 0; 1]%nat eq_refl).
Defined.

(** An instance of X9: a Data frame for sid 9 on a new client transport. *)
Lemma loopRead_drops_unknown_sid_witness :
  loadStreamIO (sid (fr_streamFrame (data_frame 9 "echo" [x01]))) example_client = None /\
  (typ (data_frame 9 "echo" [x01]) = metaFrameType \/
   typ (data_frame 9 "echo" [x01]) = dataFrameType \/
   typ (data_frame 9 "echo" [x01]) = trailerFrameType \/
   (typ (data_frame 9 "echo" [x01]) = headerFrameType /\
    kind example_client = clientTransport)) /\
  loopRead_iter 7 (Some (inl (data_frame 9 "echo" [x01]))) example_client
    = (Returned loopContinue, set_lastActive (Some 7) example_client).
Proof.
  assert (H2 : typ (data_frame 9 "echo" [x01]) = metaFrameType \/
               typ (data_frame 9 "echo" [x01]) = dataFrameType \/
               typ (data_frame 9 "echo" [x01]) = trailerFrameType \/
               (typ (data_frame 9 "echo" [x01]) = headerFrameType /\
                kind example_client = clientTransport))
    by (right; left; reflexivity).
  split; [reflexivity|]. split; [exact H2|].
  exact (loopRead_drops_unknown_sid 7 (data_frame 9 "echo" [x01]) example_client eq_refl H2).
Defined.

(** An instance of X10: a frame of type 9. *)
Lemma loopRead_ignores_other_frames_witness :
  ((typ (newFrame (streamFrame_lit 1 "echo" ∅ ∅) 9 []) <> metaFrameType /\
    typ (newFrame (streamFrame_lit 1 "echo" ∅ ∅) 9 []) <> headerFrameType /\
    typ (newFrame (streamFrame_lit 1 "echo" ∅ ∅) 9 []) <> dataFrameType /\
    typ (newFrame (streamFrame_lit 1 "echo" ∅ ∅) 9 []) <> trailerFrameType) \/
   (typ (newFrame (streamFrame_lit 1 "echo" ∅ ∅) 9 []) = headerFrameType /\
    kind example_server <> serverTransport /\ kind example_server <> clientTransport)) /\
  loopRead_iter 7 (Some (inl (newFrame (streamFrame_lit 1 "echo" ∅ ∅) 9 []))) example_server
    = (Returned loopContinue, set_lastActive (Some 7) example_server).
Proof.
  assert (H : (typ (newFrame (streamFrame_lit 1 "echo" ∅ ∅) 9 []) <> metaFrameType /\
               typ (newFrame (streamFrame_lit 1 "echo" ∅ ∅) 9 []) <> headerFrameType /\
               typ (newFrame (streamFrame_lit 1 "echo" ∅ ∅) 9 []) <> dataFrameType /\
               typ (newFrame (streamFrame_lit 1 "echo" ∅ ∅) 9 []) <> trailerFrameType) \/
              (typ (newFrame (streamFrame_lit 1 "echo" ∅ ∅) 9 []) = headerFrameType /\
               kind example_server <> serverTransport /\
               kind example_server <> clientTransport))
    by (left; repeat split; simpl; discriminate).
  split; [exact H|].
  exact (loopRead_ignores_other_frames 7 (newFrame (streamFrame_lit 1 "echo" ∅ ∅) 9 [])
           example_server H).
Defined.

(** An instance of X13: the payload [01 02] for the registered stream 1. *)
Lemma loopRead_data_then_streamRecv_witness :
  typ (data_frame 1 "echo" [x01; x02]) = dataFrameType /\
  loadStreamIO (sid (fr_streamFrame (data_frame 1 "echo" [x01; x02]))) example_registered
    = Some example_bare_streamIO /\
  exception example_bare_streamIO = None /\
  pipe example_bare_streamIO = container.NewCtxPipe /\
  (let t1 := snd (loopRead_iter 7 (Some (inl (data_frame 1 "echo" [x01; x02])))
                    example_registered) in
   let msg := {| msg_payload := payload (data_frame 1 "echo" [x01; x02]);
                 msg_exception := None |} in
   fst (loopRead_iter 7 (Some (inl (data_frame 1 "echo" [x01; x02]))) example_registered)
     = Returned loopContinue /\
   streamRecv bytes_decode (sid (fr_streamFrame (data_frame 1 "echo" [x01; x02]))) [] t1 =
     (Returned (fst (bytes_decode (payload (data_frame 1 "echo" [x01; x02])) []), None),
      set_streams
        (<[sid (fr_streamFrame (data_frame 1 "echo" [x01; x02]))
             := set_cache msg example_bare_streamIO]> (streams example_registered))
        (set_lastActive (Some 7) example_registered))).
Proof.
  assert (H2 : loadStreamIO (sid (fr_streamFrame (data_frame 1 "echo" [x01; x02])))
                 example_registered = Some example_bare_streamIO)
    by (vm_compute; reflexivity).
  split; [reflexivity|]. split; [exact H2|]. split; [reflexivity|]. split; [reflexivity|].
  exact (loopRead_data_then_streamRecv bytes_decode 7 (data_frame 1 "echo" [x01; x02])
           example_registered example_bare_streamIO [] eq_refl H2 eq_refl eq_refl).
Defined.

(** An instance of X15: stream 1 with a payload buffered. *)
Lemma streamCancel_then_streamRecv_witness :
  loadStreamIO (stream_sid (example_stream 1)) example_receiving
    = Some example_loaded_streamIO /\
  exception example_loaded_streamIO = None /\
  container.cstate (pipe example_loaded_streamIO) = container.pipeStateOpen /\
  fst (streamCancel (example_stream 1) example_receiving) = Returned None /\
  fst (streamRecv bytes_decode (stream_sid (example_stream 1)) []
         (snd (streamCancel (example_stream 1) example_receiving)))
    = Returned ([], Some io_EOF) /\
  (exists sio',
     loadStreamIO (stream_sid (example_stream 1))
       (snd (streamRecv bytes_decode (stream_sid (example_stream 1)) []
               (snd (streamCancel (example_stream 1) example_receiving))))
       = Some sio' /\
     exception sio' = Some io_EOF /\ container.cqueue (pipe sio') = []).
Proof.
  assert (H1 : loadStreamIO (stream_sid (example_stream 1)) example_receiving
               = Some example_loaded_streamIO)
    by (vm_compute; reflexivity).
  split; [exact H1|]. split; [reflexivity|]. split; [reflexivity|].
  exact (streamCancel_then_streamRecv bytes_decode (example_stream 1)
           example_loaded_streamIO [] example_receiving H1 eq_refl eq_refl).
Defined.

(** An instance of X17: a header with one entry and a [unit] payload. *)
Lemma streamSend_header_then_data_witness :
  example_header <> ∅ /\
  unit_encode tt = inl [] /\
  ch_closed (wchannel example_client) = false /\
  (length (ch_buf (wchannel example_client)) + 2 <= frameChanSize)%nat /\
  streamSend unit_encode 1 "echo" example_header (Some tt) example_client =
    (Returned None,
     set_wchannel
       {| ch_buf := ch_buf (wchannel example_client) ++
                      [newFrame (streamFrame_lit 1 "echo" example_header ∅) headerFrameType [];
                       newFrame (streamFrame_lit 1 "echo" ∅ ∅) dataFrameType []];
          ch_closed := false |} example_client).
Proof.
  assert (H1 : example_header <> ∅) by apply insert_non_empty.
  assert (H4 : (length (ch_buf (wchannel example_client)) + 2 <= frameChanSize)%nat)
    by (vm_compute; lia).
  split; [exact H1|]. split; [reflexivity|]. split; [reflexivity|]. split; [exact H4|].
  exact (streamSend_header_then_data unit_encode 1 "echo" example_header (Some tt) []
           example_client H1 eq_refl eq_refl H4).
Defined.

(** An instance of X18: the same call with an encoder that fails. *)
Lemma streamSend_encode_failure_after_header_witness :
  example_header <> ∅ /\
  failing_encode tt = inr (ErrExternal "encode") /\
  ch_closed (wchannel example_client) = false /\
  (length (ch_buf (wchannel example_client)) < frameChanSize)%nat /\
  streamSend failing_encode 1 "echo" example_header (Some tt) example_client =
    (Returned (Some (ErrExternal "encode")),
     set_wchannel
       {| ch_buf := ch_buf (wchannel example_client) ++
                      [newFrame (streamFrame_lit 1 "echo" example_header ∅) headerFrameType []];
          ch_closed := false |} example_client).
Proof.
  assert (H1 : example_header <> ∅) by apply insert_non_empty.
  assert (H4 : (length (ch_buf (wchannel example_client)) < frameChanSize)%nat)
    by (vm_compute; lia).
  split; [exact H1|]. split; [reflexivity|]. split; [reflexivity|]. split; [exact H4|].
  exact (streamSend_encode_failure_after_header failing_encode 1 "echo" example_header tt
           (ErrExternal "encode") example_client H1 eq_refl eq_refl H4).
Defined.

(** An instance of X20: a new server transport. *)
Lemma readStream_nothing_queued_witness :
  (2 <= 2)%nat /\
  kind example_server = serverTransport /\
  sl_len (scache example_server) = 0%nat /\
  length (sl_array (scache example_server)) = streamCacheSize /\
  container.queue (spipe example_server) = [] /\
  readStream 2 example_server =
    Some (if container.closed (spipe example_server)
          then Returned (None, Some io_EOF) else Blocked, example_server).
Proof.
  assert (H1 : (2 <= 2)%nat) by lia.
  split; [exact H1|]. do 4 (split; [reflexivity|]).
  exact (readStream_nothing_queued 2 example_server H1 eq_refl eq_refl eq_refl eq_refl).
Defined.

(** An instance of X21: three streams accepted by the reader loop. *)
Lemma readStream_batches_of_32_witness :
  (2 <= 2)%nat /\
  kind example_accepting = serverTransport /\
  sl_len (scache example_accepting) = 0%nat /\
  length (sl_array (scache example_accepting)) = streamCacheSize /\
  container.queue (spipe example_accepting) = Some <$> example_streams /\
  example_streams <> [] /\
  exists tk,
    readStreams 2 (length example_streams `min` streamCacheSize) example_accepting
      = Some (accepted <$> reverse (take streamCacheSize example_streams), tk) /\
    container.queue (spipe tk) = Some <$> drop streamCacheSize example_streams /\
    container.closed (spipe tk) = container.closed (spipe example_accepting) /\
    kind tk = serverTransport /\
    sl_len (scache tk) = 0%nat /\
    length (sl_array (scache tk)) = streamCacheSize.
Proof.
  assert (H1 : (2 <= 2)%nat) by lia.
  assert (Hq : container.queue (spipe example_accepting) = Some <$> example_streams)
    by (vm_compute; reflexivity).
  assert (Hne : example_streams <> []) by discriminate.
  split; [exact H1|]. do 3 (split; [reflexivity|]). split; [exact Hq|]. split; [exact Hne|].
  exact (readStream_batches_of_32 2 example_streams example_accepting
           H1 eq_refl eq_refl eq_refl Hq Hne).
Defined.

(** An instance of X22: the same transport, closed before the acceptor
    calls. *)
Lemma Close_then_readStream_drains_witness :
  (2 <= 2)%nat /\
  kind example_accepting = serverTransport /\
  ch_closed (wchannel example_accepting) = false /\
  sl_len (scache example_accepting) = 0%nat /\
  length (sl_array (scache example_accepting)) = streamCacheSize /\
  container.queue (spipe example_accepting) = Some <$> example_streams /\
  (length example_streams <= streamCacheSize)%nat /\
  exists tk,
    readStreams 2 (length example_streams + 1) (snd (Close example_accepting))
      = Some ((accepted <$> reverse example_streams) ++ [(None, Some io_EOF)], tk).
Proof.
  assert (H1 : (2 <= 2)%nat) by lia.
  assert (Hq : container.queue (spipe example_accepting) = Some <$> example_streams)
    by (vm_compute; reflexivity).
  assert (Hss : (length example_streams <= streamCacheSize)%nat) by (vm_compute; lia).
  split; [exact H1|]. do 4 (split; [reflexivity|]). split; [exact Hq|]. split; [exact Hss|].
  exact (Close_then_readStream_drains 2 example_streams example_accepting
           H1 eq_refl eq_refl eq_refl eq_refl Hq Hss).
Defined.

(** An instance of X23: the two frames of a [streamSend]. *)
Lemma loopWrite_drains_in_order_witness :
  (length (ch_buf (wchannel example_sending)) < 3)%nat /\
  ch_buf (wchannel example_sending) <> [] /\
  Forall (fun fr => encode_ok fr = None) (ch_buf (wchannel example_sending)) /\
  flush_ok (w_buffered example_writer ++ ch_buf (wchannel example_sending)) = None /\
  loopWrite encode_ok flush_ok 3 (example_sending, example_writer) =
    Some (if ch_closed (wchannel example_sending) then Returned None else Blocked,
          (chan_drained example_sending,
           {| w_buffered := [];
              w_flushed := w_flushed example_writer ++ w_buffered example_writer ++
                             ch_buf (wchannel example_sending) |})).
Proof.
  assert (H1 : (length (ch_buf (wchannel example_sending)) < 3)%nat) by (vm_compute; lia).
  assert (H2 : ch_buf (wchannel example_sending) <> []) by (vm_compute; discriminate).
  assert (H3 : Forall (fun fr => encode_ok fr = None) (ch_buf (wchannel example_sending)))
    by (apply Forall_forall; reflexivity).
  split; [exact H1|]. split; [exact H2|]. split; [exact H3|]. split; [reflexivity|].
  exact (loopWrite_drains_in_order encode_ok flush_ok 3 example_sending example_writer
           H1 H2 H3 eq_refl).
Defined.

(** An instance of X24: the Data frame fails to encode. *)
Lemma loopWrite_encode_failure_witness :
  (length [example_header_frame] < 2)%nat /\
  ch_buf (wchannel example_sending) = [example_header_frame] ++ example_data_frame :: [] /\
  Forall (fun fr => encode_no_data fr = None) [example_header_frame] /\
  encode_no_data example_data_frame = Some (ErrExternal "encode frame") /\
  loopWrite encode_no_data flush_ok 2 (example_sending, example_writer) =
    Some (Returned (Some (ErrExternal "encode frame")),
          (set_wchannel {| ch_buf := []; ch_closed := ch_closed (wchannel example_sending) |}
             example_sending,
           {| w_buffered := w_buffered example_writer ++ [example_header_frame];
              w_flushed := w_flushed example_writer |})).
Proof.
  assert (H1 : (length [example_header_frame] < 2)%nat) by (simpl; lia).
  assert (H2 : ch_buf (wchannel example_sending)
               = [example_header_frame] ++ example_data_frame :: [])
    by (vm_compute; reflexivity).
  assert (H3 : Forall (fun fr => encode_no_data fr = None) [example_header_frame])
    by (repeat constructor).
  split; [exact H1|]. split; [exact H2|]. split; [exact H3|]. split; [reflexivity|].
  exact (loopWrite_encode_failure encode_no_data flush_ok 2 [example_header_frame] []
           example_data_frame (ErrExternal "encode frame") example_sending example_writer
           H1 H2 H3 eq_refl).
Defined.

(** An instance of X25: send, then write. *)
Lemma streamSend_then_loopWrite_witness :
  (3 <= 3)%nat /\
  example_header <> ∅ /\
  unit_encode tt = inl [] /\
  ch_closed (wchannel example_client) = false /\
  ch_buf (wchannel example_client) = [] /\
  encode_ok (newFrame (streamFrame_lit 1 "echo" example_header ∅) headerFrameType []) = None /\
  encode_ok (newFrame (streamFrame_lit 1 "echo" ∅ ∅) dataFrameType []) = None /\
  flush_ok (w_buffered example_writer ++
              [newFrame (streamFrame_lit 1 "echo" example_header ∅) headerFrameType [];
               newFrame (streamFrame_lit 1 "echo" ∅ ∅) dataFrameType []]) = None /\
  loopWrite encode_ok flush_ok 3
      (snd (streamSend unit_encode 1 "echo" example_header (Some tt) example_client),
       example_writer) =
    Some (Blocked,
          (set_wchannel {| ch_buf := []; ch_closed := false |} example_client,
           {| w_buffered := [];
              w_flushed := w_flushed example_writer ++ w_buffered example_writer ++
                [newFrame (streamFrame_lit 1 "echo" example_header ∅) headerFrameType [];
                 newFrame (streamFrame_lit 1 "echo" ∅ ∅) dataFrameType []] |})).
Proof.
  assert (H1 : (3 <= 3)%nat) by lia.
  assert (H2 : example_header <> ∅) by apply insert_non_empty.
  split; [exact H1|]. split; [exact H2|]. do 6 (split; [reflexivity|]).
  exact (streamSend_then_loopWrite encode_ok flush_ok unit_encode 3 1 "echo" example_header
           (Some tt) [] example_client example_writer
           H1 H2 eq_refl eq_refl eq_refl eq_refl eq_refl eq_refl).
Defined.

(** An instance of X26: a read, a peek, a skip that fails and a one-byte
    read on three arrived bytes. *)
Lemma connBuffer_ReadLen_counts_consumed_witness :
  0 <= readSize example_connBuffer /\
  readSize example_connBuffer + Z.of_nat (length (cb_reader example_connBuffer)) <= MaxInt /\
  (let c' := fold_left (fun c rc => connBuffer_call rc c)
               [rcNext 1; rcPeek 2; rcSkip 5; rcReadBinary [x00]] example_connBuffer in
   exists k : nat,
     cb_reader c' = drop k (cb_reader example_connBuffer) /\
     (k <= length (cb_reader example_connBuffer))%nat /\
     connBuffer_ReadLen c' = connBuffer_ReadLen example_connBuffer + Z.of_nat k).
Proof.
  assert (H1 : 0 <= readSize example_connBuffer) by (vm_compute; discriminate).
  assert (H2 : readSize example_connBuffer
               + Z.of_nat (length (cb_reader example_connBuffer)) <= MaxInt)
    by (vm_compute; discriminate).
  split; [exact H1|]. split; [exact H2|].
  exact (connBuffer_ReadLen_counts_consumed [rcNext 1; rcPeek 2; rcSkip 5; rcReadBinary [x00]]
           example_connBuffer H1 H2).
Defined.
